(** * Review-history exporter: a shallow embedding of [src/__init__.py]

    The development follows the source file top-down: Python strings and the
    regular expressions of the field cleaner, [clean_field_value], the parsing
    of the dialog's text inputs, [_deck_and_child_ids], and
    [export_llm_stats] with the query it builds, the projection of a row and
    the file it writes.

    Conventions.
    - A Python [str] is a list of Unicode code points ([N]); a Python [int] is
      a [Z]; a Python [float] is a binary64 [spec_float].
    - A [dict] whose order is observable (the JSON object of a row) is an
      association list in insertion order; a [dict] used as a lookup table is
      a [gmap].
    - Exceptions the code can meet are values of [exn] in the [result] monad.
    - Library functions ([re], [html.unescape], [json.dumps], [time.gmtime],
      SQLite's LIKE) are modelled next to their first use, each with the
      behaviour of the library it stands for. *)

From Stdlib Require Import ZArith NArith Lia Ascii DecimalPos.
From Stdlib Require Import Floats.SpecFloat.
From stdpp Require Import base option list strings gmap sorting relations.

Local Open Scope N_scope.

(** ** Python strings *)

Definition char := N.
Definition str := list char.

(** An ASCII literal as a [str]. *)
Definition lit (s : string) : str :=
  map N_of_ascii (String.list_ascii_of_string s).

(** [str.isspace] on one character, which is also what [\s] matches in a
    [str] pattern: the code points CPython's [Py_UNICODE_ISSPACE] accepts. *)
Definition isspace (c : char) : bool :=
  ((9 <=? c) && (c <=? 13)) || ((28 <=? c) && (c <=? 32))
  || (c =? 133) || (c =? 160) || (c =? 5760)
  || ((8192 <=? c) && (c <=? 8202))
  || (c =? 8232) || (c =? 8233) || (c =? 8239) || (c =? 8287) || (c =? 12288).

Definition space : char := 32.
Definition nbsp : char := 160.
Definition amp : char := 38.
Definition lt : char := 60.
Definition gt : char := 62.

Fixpoint lstrip (s : str) : str :=
  match s with
  | c :: s' => if isspace c then lstrip s' else s
  | [] => []
  end.

(** [rstrip] keeps a character when it is not whitespace or when something
    that is kept follows it. *)
Fixpoint rstrip (s : str) : str :=
  match s with
  | [] => []
  | c :: s' =>
      match rstrip s' with
      | [] => if isspace c then [] else [c]
      | r => c :: r
      end
  end.

(** [s.strip()] *)
Definition strip (s : str) : str := rstrip (lstrip s).

(** [s.split(sep)] for a one-character separator: the pieces between the
    separators, so always at least one piece. *)
Fixpoint split_on (sep : char) (s : str) : list str :=
  match s with
  | [] => [[]]
  | c :: s' =>
      if c =? sep then [] :: split_on sep s'
      else match split_on sep s' with
           | p :: ps => (c :: p) :: ps
           | [] => [[c]]
           end
  end.

(** [s.split()]: the maximal runs of non-whitespace characters. *)
Fixpoint split_ws (s : str) : list str :=
  match s with
  | [] => []
  | c :: s' =>
      if isspace c then split_ws s'
      else match s' with
           | d :: _ =>
               if isspace d then [c] :: split_ws s'
               else match split_ws s' with
                    | p :: ps => (c :: p) :: ps
                    | [] => [[c]]
                    end
           | [] => [[c]]
           end
  end.

(** [s.replace(a, b)] for single characters. *)
Definition replace_char (a b : char) (s : str) : str :=
  map (fun c => if c =? a then b else c) s.

(** ** Regular expressions

    [re.sub] scans the text from the left. Where the pattern matches, the
    match is replaced and the scan goes on behind it; elsewhere one character
    is copied. A matcher gives, for the text at the current position, the
    length of the match and its replacement. None of the patterns of this
    program matches the empty string, so a match of length 0 counts as no
    match. [skip] is the number of characters of a match still to pass. *)

Fixpoint re_sub_from (m : str -> option (nat * str)) (skip : nat) (t : str) : str :=
  match t with
  | [] => []
  | c :: t' =>
      match skip with
      | S k => re_sub_from m k t'
      | O =>
          match m t with
          | Some (S k, repl) => repl ++ re_sub_from m k t'
          | _ => c :: re_sub_from m O t'
          end
      end
  end.

Definition re_sub (m : str -> option (nat * str)) (t : str) : str :=
  re_sub_from m O t.

(** The characters an ASCII letter of a pattern matches under
    [re.IGNORECASE] in a [str] pattern: its two cases, and the characters
    CPython's case table adds (long s for [s], dotted capital I and dotless i
    for [i], the Kelvin sign for [k]). Other characters match themselves. *)
Definition ignorecase_class (p : char) : list char :=
  if (97 <=? p) && (p <=? 122) then
    [p; p - 32] ++
    (if p =? 115 then [383] else if p =? 105 then [304; 305]
     else if p =? 107 then [8490] else [])
  else if (65 <=? p) && (p <=? 90) then
    [p; p + 32] ++
    (if p =? 83 then [383] else if p =? 73 then [304; 305]
     else if p =? 75 then [8490] else [])
  else [p].

Definition char_matches (ignorecase : bool) (p c : char) : bool :=
  if ignorecase then existsb (N.eqb c) (ignorecase_class p) else c =? p.

(** A literal prefix: the text behind it when it matches. *)
Fixpoint match_literal (ignorecase : bool) (p t : str) : option str :=
  match p with
  | [] => Some t
  | a :: p' =>
      match t with
      | c :: t' =>
          if char_matches ignorecase a c then match_literal ignorecase p' t'
          else None
      | [] => None
      end
  end.

(** The number of characters before the first [stop], when there is one. *)
Fixpoint run_until (stop : char) (t : str) : option nat :=
  match t with
  | [] => None
  | c :: t' => if c =? stop then Some O else S <$> run_until stop t'
  end.

(** A pattern [prefix[^stop]{least,}stop]: the greedy class runs to the first
    [stop], and giving characters back cannot help, since each of them is not
    a [stop]. The result is the length of the match. *)
Definition match_delimited (ignorecase : bool) (prefix : str) (least : nat)
    (stop : char) (t : str) : option nat :=
  match match_literal ignorecase prefix t with
  | Some rest =>
      match run_until stop rest with
      | Some n =>
          if (least <=? n)%nat then Some (length prefix + n + 1)%nat else None
      | None => None
      end
  | None => None
  end.

(** [pattern.sub(repl, text)] with a fixed replacement; a pattern is given by
    the length of its match at the head of a text. *)
Definition sub (pattern : str -> option nat) (repl : str) (text : str) : str :=
  re_sub (fun t => (fun n => (n, repl)) <$> pattern t) text.

(** [_SOUND_RE = re.compile(r"\[sound:[^\]]+\]", re.IGNORECASE)] *)
Definition _SOUND_RE : str -> option nat :=
  match_delimited true (lit "[sound:") 1 93.

(** [_IMG_TAG_RE = re.compile(r"<img[^>]*>", re.IGNORECASE)] *)
Definition _IMG_TAG_RE : str -> option nat :=
  match_delimited true (lit "<img") 0 gt.

(** [_HTML_TAG_RE = re.compile(r"<[^>]+>")] *)
Definition _HTML_TAG_RE : str -> option nat :=
  match_delimited false [lt] 1 gt.

(** [_WS_RE = re.compile(r"\s+")]: the length of the whitespace run. *)
Fixpoint ws_run (t : str) : nat :=
  match t with
  | c :: t' => if isspace c then S (ws_run t') else O
  | [] => O
  end.

Definition _WS_RE (t : str) : option nat :=
  match ws_run t with
  | O => None
  | n => Some n
  end.

(** ** Exceptions *)

Inductive exn := RecursionError | OverflowError | ValueError | IndexError.

Inductive result (A : Type) : Type :=
| Ok (a : A)
| Raise (e : exn).
Arguments Ok {A} a.
Arguments Raise {A} e.

#[global] Instance result_ret : MRet result := @Ok.

#[global] Instance result_bind : MBind result :=
  fun A B k r =>
    match r with
    | Ok a => k a
    | Raise e => Raise e
    end.

Definition is_ok {A} (r : result A) : bool :=
  match r with Ok _ => true | Raise _ => false end.

(** ** Time range options *)

(** Predefined time range option for the export dialog. *)
Record TimeRangeOption := {
  tr_label : str;
  tr_days : option Z   (* None == no time limit *)
}.

Definition TIME_RANGE_OPTIONS : list TimeRangeOption :=
  [ {| tr_label := lit "Last day (24h)"; tr_days := Some 1%Z |};
    {| tr_label := lit "Last week (7 days)"; tr_days := Some 7%Z |};
    {| tr_label := lit "Last month (30 days)"; tr_days := Some 30%Z |};
    {| tr_label := lit "Last 3 months (90 days)"; tr_days := Some 90%Z |};
    {| tr_label := lit "Last year (365 days)"; tr_days := Some 365%Z |};
    {| tr_label := lit "All history"; tr_days := None |} ].

(** A combo box: its items, each a text with its data, and the index of the
    current item, which is -1 when there is none. *)
Record QComboBox (A : Type) := {
  items : list (str * A);
  currentIndex : Z
}.
Arguments items {A} _.
Arguments currentIndex {A} _.

(** [combo.currentData()]: the data of the current item, [None] when there
    is no current item. *)
Definition currentData {A} (combo : QComboBox A) : option A :=
  if (currentIndex combo <? 0)%Z then None
  else snd <$> items combo !! Z.to_nat (currentIndex combo).

(** [combo.addItem(text, data)]: the item goes to the end, and becomes the
    current one when it is the first. *)
Definition addItem {A} (text : str) (data : A) (combo : QComboBox A) : QComboBox A :=
  {| items := items combo ++ [(text, data)];
     currentIndex :=
       match items combo with
       | [] => 0%Z
       | _ => currentIndex combo
       end |}.

(** [combo.clear()] *)
Definition clear {A} (combo : QComboBox A) : QComboBox A :=
  {| items := []; currentIndex := (-1)%Z |}.

(** ** The dialog's getters

    Each takes the content of the widget it reads. [int] and [str.lower] are
    Python's: [py_int s] is [None] where [int(s)] raises [ValueError]. *)

Section Dialog.

Variable py_int : str -> option Z.
Variable str_lower : str -> str.

Definition selected_days (custom_days : Z) (range_data : option Z) : option Z :=
  if negb (custom_days =? 0)%Z && (0 <? custom_days)%Z then Some custom_days
  else range_data.

(** The body of the loop of [selected_field_indexes]. *)
Definition field_index_step (idxs : list Z) (part : str) : list Z :=
  let part := strip part in
  match part with
  | [] => idxs
  | _ =>
      match py_int part with
      | Some i => if (0 <=? i)%Z then idxs ++ [i] else idxs
      | None => idxs
      end
  end.

Definition selected_field_indexes (field_indexes_edit : str) : option (list Z) :=
  let text := strip field_indexes_edit in
  match text with
  | [] => None
  | _ =>
      let idxs := fold_left field_index_step (split_on 44 text) [] in
      match idxs with [] => None | _ => Some idxs end
  end.

(** The body of the loop of [selected_tags]. *)
Definition tag_step (tags : list str) (part : str) : list str :=
  let t := str_lower (strip part) in
  match t with
  | [] => tags
  | _ => tags ++ [t]
  end.

Definition selected_tags (tags_edit : str) : option (list str) :=
  let text := strip tags_edit in
  match text with
  | [] => None
  | _ =>
      let tags := fold_left tag_step (split_ws (replace_char 44 space text)) [] in
      match tags with [] => None | _ => Some tags end
  end.

Definition min_interval_of (value : Z) : option Z :=
  if (0 <? value)%Z then Some value else None.

(** [int(self.deck_combo.currentData())]; [None] stands for the [TypeError]
    of [int(None)], when the combo box has no current item. *)
Definition selected_deck_id (deck_combo : QComboBox Z) : option Z :=
  currentData deck_combo.

(** [self.path_edit.text().strip()] *)
Definition output_path (path_edit : str) : str := strip path_edit.

End Dialog.

(** ** The collection

    What the exporter reads of Anki's collection: the deck manager and the
    rows of [revlog] joined with their card and their note. *)

Record Row := {
  r_id : Z;        (* timestamp (ms) *)
  r_cid : Z;       (* card id *)
  c_nid : Z;       (* note id *)
  c_did : Z;       (* deck id *)
  r_ease : Z;
  r_ivl : Z;
  r_lastIvl : Z;
  r_factor : Z;
  r_time : Z;
  r_type : Z;
  n_flds : str;
  n_tags : str
}.

(** [deck_and_child_ids] is absent from the deck manager of older versions,
    and a call of it may raise. [children] gives pairs of a name and an id. *)
Record DeckManager := {
  deck_and_child_ids : option (Z -> result (list Z));
  children : Z -> list (str * Z);
  all_names_and_ids : list (Z * str)
}.

Record Collection := {
  decks : DeckManager;
  db : list Row
}.

(** ** Deck utilities *)

(** The inner function [collect]. [limit] is the number of nested calls the
    interpreter still allows; the list [acc] is threaded through. *)
Fixpoint collect (limit : nat) (col : Collection) (did : Z) (acc : list Z)
    : result (list Z) :=
  match limit with
  | O => Raise RecursionError
  | S limit' =>
      fold_left
        (fun r (c : str * Z) =>
           acc ← r;
           collect limit' col (snd c) (acc ++ [snd c]))
        (children (decks col) did) (Ok acc)
  end.

Definition _deck_and_child_ids (limit : nat) (col : Collection) (deck_id : Z)
    : result (list Z) :=
  let decks_ := [deck_id] in
  let fallback := collect limit col deck_id decks_ in
  (* Newer Anki: DeckManager.deck_and_child_ids() *)
  match deck_and_child_ids (decks col) with
  | Some bulk =>
      match bulk deck_id with
      | Ok ids => Ok ids
      | Raise _ => fallback
      end
  | None => fallback
  end.

(** ** [html.unescape]

    The function of Python's standard library, after [html/__init__.py]. Its
    table of named references, [html.entities.html5], is a parameter of the
    development. Integers are unbounded: the interpreter's optional limit on
    the number of digits [int] converts is not part of the model. *)

Definition is_digit (c : char) : bool := (48 <=? c) && (c <=? 57).

Definition hex_value (c : char) : option N :=
  if is_digit c then Some (c - 48)
  else if (97 <=? c) && (c <=? 102) then Some (c - 87)
  else if (65 <=? c) && (c <=? 70) then Some (c - 55)
  else None.

Definition is_hexdigit (c : char) : bool :=
  match hex_value c with Some _ => true | None => false end.

(** [[^\t\n\f <&#;]] *)
Definition is_name_char (c : char) : bool :=
  negb (existsb (N.eqb c) [9; 10; 12; 32; 60; 38; 35; 59]).

Fixpoint run_while (p : char -> bool) (t : str) : nat :=
  match t with
  | c :: t' => if p c then S (run_while p t') else O
  | [] => O
  end.

(** [int(s, base)] on a string of digits of that base. *)
Definition int_of_digits (base : N) (ds : str) : N :=
  fold_left (fun acc c => acc * base + default 0 (hex_value c)) ds 0.

(** [s.rstrip(';')] *)
Fixpoint rstrip_semicolon (s : str) : str :=
  match s with
  | [] => []
  | c :: s' =>
      match rstrip_semicolon s' with
      | [] => if c =? 59 then [] else [c]
      | r => c :: r
      end
  end.

Definition _invalid_charrefs : list (N * char) :=
  [ (0x00, 0xfffd); (0x0d, 0x0d); (0x80, 0x20ac); (0x81, 0x81);
    (0x82, 0x201a); (0x83, 0x0192); (0x84, 0x201e); (0x85, 0x2026);
    (0x86, 0x2020); (0x87, 0x2021); (0x88, 0x02c6); (0x89, 0x2030);
    (0x8a, 0x0160); (0x8b, 0x2039); (0x8c, 0x0152); (0x8d, 0x8d);
    (0x8e, 0x017d); (0x8f, 0x8f); (0x90, 0x90); (0x91, 0x2018);
    (0x92, 0x2019); (0x93, 0x201c); (0x94, 0x201d); (0x95, 0x2022);
    (0x96, 0x2013); (0x97, 0x2014); (0x98, 0x02dc); (0x99, 0x2122);
    (0x9a, 0x0161); (0x9b, 0x203a); (0x9c, 0x0153); (0x9d, 0x9d);
    (0x9e, 0x017e); (0x9f, 0x0178) ].

(** Membership in [_invalid_codepoints]. *)
Definition _invalid_codepoints (n : N) : bool :=
  ((0x1 <=? n) && (n <=? 0x8)) || ((0xe <=? n) && (n <=? 0x1f))
  || ((0x7f <=? n) && (n <=? 0x9f)) || ((0xfdd0 <=? n) && (n <=? 0xfdef))
  || (n =? 0xb)
  || ((n <=? 0x10ffff) && (0xfffe <=? N.land n 0xffff)).

Fixpoint assoc (k : N) (l : list (N * char)) : option char :=
  match l with
  | (k', v) :: l' => if k =? k' then Some v else assoc k l'
  | [] => None
  end.

(** ** Floats

    [time.time()] gives a binary64 float, and the exporter mixes it with
    integers. The operations are those of [SpecFloat] at precision 53. *)

Definition prec : Z := 53.
Definition emax : Z := 1024.

(** The conversion of an [int] operand of a float operation: to the nearest
    float, [OverflowError] when there is none. *)
Definition float_of_int (z : Z) : result spec_float :=
  match binary_normalize prec emax z 0 false with
  | S754_infinity _ => Raise OverflowError
  | f => Ok f
  end.

(** [int(x)]: towards zero. *)
Definition int_of_float (x : spec_float) : result Z :=
  match x with
  | S754_zero _ => Ok 0%Z
  | S754_finite s m e => Ok (cond_Zopp s (Z.shiftl (Z.pos m) e))
  | S754_infinity _ => Raise OverflowError
  | S754_nan => Raise ValueError
  end.

(** The whole seconds [time.gmtime] takes of a float: towards minus
    infinity. *)
Definition floor_of_float (x : spec_float) : result Z :=
  match x with
  | S754_zero _ => Ok 0%Z
  | S754_finite s m e => Ok (Z.shiftl (cond_Zopp s (Z.pos m)) e)
  | S754_infinity _ => Raise OverflowError
  | S754_nan => Raise ValueError
  end.

(** [int((now_sec - days * 86400) * 1000)] *)
Definition cutoff_of (now_sec : spec_float) (days : Z) : result Z :=
  d ← float_of_int (days * 86400);
  k ← float_of_int 1000;
  int_of_float (SFmul prec emax (SFsub prec emax now_sec d) k).

(** ** Time formatting *)

Fixpoint uint_digits (u : Decimal.uint) : str :=
  match u with
  | Decimal.Nil => []
  | Decimal.D0 u => 48 :: uint_digits u
  | Decimal.D1 u => 49 :: uint_digits u
  | Decimal.D2 u => 50 :: uint_digits u
  | Decimal.D3 u => 51 :: uint_digits u
  | Decimal.D4 u => 52 :: uint_digits u
  | Decimal.D5 u => 53 :: uint_digits u
  | Decimal.D6 u => 54 :: uint_digits u
  | Decimal.D7 u => 55 :: uint_digits u
  | Decimal.D8 u => 56 :: uint_digits u
  | Decimal.D9 u => 57 :: uint_digits u
  end.

(** [str(z)] of an [int]. *)
Definition repr_int (z : Z) : str :=
  match Z.to_int z with
  | Decimal.Pos u => uint_digits u
  | Decimal.Neg u => 45 :: uint_digits u
  end.

Record struct_time := {
  tm_year : Z; tm_mon : Z; tm_mday : Z;
  tm_hour : Z; tm_min : Z; tm_sec : Z
}.

(** [time.gmtime] on whole seconds: the proleptic Gregorian date of the day
    number and the time within the day. *)
Definition gmtime (secs : Z) : struct_time :=
  let day := (secs / 86400)%Z in
  let rem := (secs mod 86400)%Z in
  let z := (day + 719468)%Z in
  let era := (z / 146097)%Z in
  let doe := (z - era * 146097)%Z in
  let yoe := ((doe - doe / 1460 + doe / 36524 - doe / 146096) / 365)%Z in
  let doy := (doe - (365 * yoe + yoe / 4 - yoe / 100))%Z in
  let mp := ((5 * doy + 2) / 153)%Z in
  let d := (doy - (153 * mp + 2) / 5 + 1)%Z in
  let m := (if mp <? 10 then mp + 3 else mp - 9)%Z in
  let y := (yoe + era * 400 + (if m <=? 2 then 1 else 0))%Z in
  {| tm_year := y; tm_mon := m; tm_mday := d;
     tm_hour := (rem / 3600)%Z; tm_min := (rem mod 3600 / 60)%Z;
     tm_sec := (rem mod 60)%Z |}.

Definition two_digits (n : Z) : str :=
  if (n <? 10)%Z then 48 :: repr_int n else repr_int n.

(** [time.strftime("%Y-%m-%dT%H:%M:%SZ", t)]; [%Y] is the year in decimal,
    four digits for the years 1000 to 9999. *)
Definition strftime_iso (t : struct_time) : str :=
  repr_int (tm_year t) ++ [45] ++ two_digits (tm_mon t) ++ [45]
  ++ two_digits (tm_mday t) ++ [84] ++ two_digits (tm_hour t) ++ [58]
  ++ two_digits (tm_min t) ++ [58] ++ two_digits (tm_sec t) ++ [90].

(** The float [1000.0]. *)
Definition thousand : spec_float := S754_finite false 8796093022208000 (-43).

(** [time.strftime("%Y-%m-%dT%H:%M:%SZ", time.gmtime(ts_ms / 1000.0))] *)
Definition ts_iso_of (ts_ms : Z) : result str :=
  t ← float_of_int ts_ms;
  secs ← floor_of_float (SFdiv prec emax t thousand);
  Ok (strftime_iso (gmtime secs)).

(** ** JSON

    [json.dumps(obj, ensure_ascii=False)] on the objects the exporter builds:
    integers, strings and lists of strings under string keys, in the order
    of insertion. *)

Inductive json :=
| JInt (z : Z)
| JStr (s : str)
| JStrs (l : list str).

Definition hex_digit (n : N) : char := if n <? 10 then 48 + n else 87 + n.

(** The escapes of the encoder: the quote, the backslash, and the control
    characters below U+0020, by name where JSON has one. *)
Definition escape_char (c : char) : str :=
  if c =? 34 then [92; 34]
  else if c =? 92 then [92; 92]
  else if c =? 10 then [92; 110]
  else if c =? 13 then [92; 114]
  else if c =? 9 then [92; 116]
  else if c =? 8 then [92; 98]
  else if c =? 12 then [92; 102]
  else if c <? 32 then [92; 117; 48; 48; hex_digit (c / 16); hex_digit (c mod 16)]
  else [c].

Definition encode_str (s : str) : str :=
  [34] ++ concat (map escape_char s) ++ [34].

Fixpoint join (sep : str) (l : list str) : str :=
  match l with
  | [] => []
  | [x] => x
  | x :: l' => x ++ sep ++ join sep l'
  end.

Definition dumps_value (v : json) : str :=
  match v with
  | JInt z => repr_int z
  | JStr s => encode_str s
  | JStrs l => [91] ++ join (lit ", ") (map encode_str l) ++ [93]
  end.

Definition dumps (obj : list (str * json)) : str :=
  [123]
  ++ join (lit ", ")
       (map (fun kv => encode_str (fst kv) ++ lit ": " ++ dumps_value (snd kv)) obj)
  ++ [125].

(** [obj[key] = value] on a dict: the value of a key that is there is
    replaced in place, a new key goes to the end. *)
Fixpoint dict_set (key : str) (value : json) (obj : list (str * json))
    : list (str * json) :=
  match obj with
  | [] => [(key, value)]
  | (k, v) :: obj' =>
      if bool_decide (k = key) then (k, value) :: obj'
      else (k, v) :: dict_set key value obj'
  end.

(** ** The query

    The statement the exporter builds has a fixed SELECT over the join, a
    WHERE that is a conjunction of clauses, and ORDER BY r.id. A clause is
    one of the four conditions the code writes, or a disjunction of them in
    brackets; each [?] takes the next of the bound parameters. *)

Inductive param := PInt (z : Z) | PText (s : str).

Inductive atom :=
| DidIn (ids : list Z)   (* c.did IN (...) *)
| IdGe                   (* r.id >= ? *)
| TagsLike               (* n.tags LIKE ? *)
| IvlGe.                 (* r.ivl >= ? *)

Inductive clause :=
| Atom (a : atom)
| AnyOf (l : list atom). (* ( a OR ... OR a ) *)

Definition ascii_upper (c : char) : char :=
  if (97 <=? c) && (c <=? 122) then c - 32 else c.

(** SQLite's LIKE: [%] stands for any run of characters, [_] for any one
    character, and any other character for itself, the ASCII letters without
    regard to case. *)
Fixpoint sql_like (p t : str) : bool :=
  match p with
  | [] => match t with [] => true | _ => false end
  | c :: p' =>
      if c =? 37 then
        (fix any (t : str) : bool :=
           sql_like p' t
           || match t with [] => false | _ :: t' => any t' end) t
      else
        match t with
        | [] => false
        | d :: t' =>
            ((c =? 95) || (ascii_upper c =? ascii_upper d)) && sql_like p' t'
        end
  end.

(** A condition on a row: its value, and the parameters left. An integer
    column is below every text, and the tags are a text, which no integer
    pattern of the exporter is compared with. *)
Definition eval_atom (a : atom) (ps : list param) (row : Row)
    : bool * list param :=
  match a with
  | DidIn ids => (existsb (Z.eqb (c_did row)) ids, ps)
  | IdGe =>
      match ps with
      | PInt c :: ps' => ((c <=? r_id row)%Z, ps')
      | _ => (false, tail ps)
      end
  | TagsLike =>
      match ps with
      | PText p :: ps' => (sql_like p (n_tags row), ps')
      | _ => (false, tail ps)
      end
  | IvlGe =>
      match ps with
      | PInt c :: ps' => ((c <=? r_ivl row)%Z, ps')
      | _ => (false, tail ps)
      end
  end.

Fixpoint eval_any (l : list atom) (ps : list param) (row : Row)
    : bool * list param :=
  match l with
  | [] => (false, ps)
  | a :: l' =>
      let '(b, ps) := eval_atom a ps row in
      let '(b', ps) := eval_any l' ps row in
      (b || b', ps)
  end.

Definition eval_clause (c : clause) (ps : list param) (row : Row)
    : bool * list param :=
  match c with
  | Atom a => eval_atom a ps row
  | AnyOf l => eval_any l ps row
  end.

(** The clauses joined by AND. *)
Fixpoint eval_where (cs : list clause) (ps : list param) (row : Row) : bool :=
  match cs with
  | [] => true
  | c :: cs' =>
      let '(b, ps) := eval_clause c ps row in
      b && eval_where cs' ps row
  end.

(** ORDER BY r.id *)
Fixpoint insert_by_id (r : Row) (l : list Row) : list Row :=
  match l with
  | [] => [r]
  | x :: l' =>
      if (r_id r <=? r_id x)%Z then r :: l else x :: insert_by_id r l'
  end.

Definition order_by_id (l : list Row) : list Row := foldr insert_by_id [] l.

(** [col.db.execute(sql, *params)] for a statement with these clauses. *)
Definition db_execute (col : Collection) (where_clauses : list clause)
    (params : list param) : list Row :=
  order_by_id (filter (fun row => eval_where where_clauses params row) (db col)).

(** A few entries of [html.entities.html5], for the examples below. *)
Definition html5_excerpt : gmap str str :=
  list_to_map
    [ (lit "amp;", [amp]); (lit "amp", [amp]); (lit "lt;", [lt]);
      (lit "lt", [lt]); (lit "gt;", [gt]); (lit "gt", [gt]);
      (lit "nbsp;", [nbsp]); (lit "nbsp", [nbsp]); (lit "quot;", [34]);
      (lit "quot", [34]); (lit "not", [172]); (lit "not;", [172]);
      (lit "notin;", [8713]) ].

Section Exporter.

(** [html.entities.html5]: a name, with its semicolon when it has one, to the
    text it stands for. *)
Variable _html5 : gmap str str.

(** The loop [for x in range(len(s)-1, 1, -1)] of [_replace_charref] and its
    [else]: the longest proper prefix of at least two characters that is a
    name of the table. *)
Fixpoint longest_name (x : nat) (s : str) : str :=
  match x with
  | S x' =>
      if (2 <=? x)%nat then
        match _html5 !! take x s with
        | Some v => v ++ drop x s
        | None => longest_name x' s
        end
      else amp :: s
  | O => amp :: s
  end.

(** [s] is the first group of the match: the reference without its [&]. *)
Definition _replace_charref (s : str) : str :=
  match s with
  | 35 :: s1 =>
      let num :=
        match s1 with
        | x :: s2 =>
            if (x =? 120) || (x =? 88)
            then int_of_digits 16 (rstrip_semicolon s2)
            else int_of_digits 10 (rstrip_semicolon s1)
        | [] => 0
        end in
      match assoc num _invalid_charrefs with
      | Some c => [c]
      | None =>
          if ((0xD800 <=? num) && (num <=? 0xDFFF)) || (0x10FFFF <? num)
          then [0xFFFD]
          else if _invalid_codepoints num then []
          else [num]
      end
  | _ =>
      match _html5 !! s with
      | Some v => v
      | None => longest_name (length s - 1) s
      end
  end.

(** An optional [;] at the head of the text. *)
Definition semicolon (t : str) : nat :=
  match t with
  | c :: _ => if c =? 59 then 1%nat else 0%nat
  | [] => 0%nat
  end.

(** The first group of
    [_charref = &(#[0-9]+;?|#[xX][0-9a-fA-F]+;?|[^\t\n\f <&#;]{1,32};?)]
    on the text behind the [&]: its length. The alternatives are tried in
    order, each is greedy, and nothing follows the group. *)
Definition charref_group (r : str) : option nat :=
  match r with
  | h :: r1 =>
      if h =? 35 then
        match run_while is_digit r1 with
        | (S _) as nd => Some (1 + nd + semicolon (drop nd r1))%nat
        | O =>
            match r1 with
            | x :: r2 =>
                if (x =? 120) || (x =? 88) then
                  match run_while is_hexdigit r2 with
                  | (S _) as nh => Some (2 + nh + semicolon (drop nh r2))%nat
                  | O => None
                  end
                else None
            | [] => None
            end
        end
      else
        match Nat.min 32 (run_while is_name_char r) with
        | (S _) as nn => Some (nn + semicolon (drop nn r))%nat
        | O => None
        end
  | [] => None
  end.

Definition _charref (t : str) : option (nat * str) :=
  match t with
  | a :: r =>
      if a =? amp then
        (fun n => (S n, _replace_charref (take n r))) <$> charref_group r
      else None
  | [] => None
  end.

(** [html.unescape] *)
Definition unescape (s : str) : str :=
  if existsb (N.eqb amp) s then re_sub _charref s else s.

(** ** Field cleaning *)

Definition clean_field_value (text : str) : str :=
  match text with
  | [] => []
  | _ =>
      (* Remove [sound:...] *)
      let text := sub _SOUND_RE [] text in
      (* Remove <img ...> *)
      let text := sub _IMG_TAG_RE [] text in
      (* Unescape HTML entities *)
      let text := unescape text in
      (* Remove remaining HTML tags *)
      let text := sub _HTML_TAG_RE [] text in
      (* Collapse whitespace *)
      strip (sub _WS_RE [space] text)
  end.

(** ** Export logic (revlog to JSONL) *)

Record ExportOptions := {
  deck_id : Z;
  days : option Z;
  out_path : str;
  field_indexes : option (list Z);
  tags_filter : option (list str);
  min_interval : option Z;
  include_ids : bool;
  include_deck_name : bool;
  include_ts_ms : bool;
  compact_schema : bool
}.

Record ExportResult := {
  count : nat;
  first_ts_ms : option Z;
  last_ts_ms : option Z;
  deck_name : str
}.

Definition unknown : str := lit "<unknown>".

(** [l[idx]] on a list: a negative index counts from the end, and an index
    outside the list raises. *)
Definition getitem {A} (l : list A) (idx : Z) : result A :=
  let i := (if idx <? 0 then idx + Z.of_nat (length l) else idx)%Z in
  if (i <? 0)%Z then Raise IndexError
  else match l !! Z.to_nat i with
       | Some x => Ok x
       | None => Raise IndexError
       end.

(** The time filter: the cutoff, when a number of days is given. *)
Definition cutoff_ms (now_sec : spec_float) (days : option Z) : result (option Z) :=
  match days with
  | Some d => c ← cutoff_of now_sec d; Ok (Some c)
  | None => Ok None
  end.

(** [f"% {tag} %"] *)
Definition tag_pattern (tag : str) : str := lit "% " ++ tag ++ lit " %".

(** [where_clauses] and [params] as the code extends them. *)
Definition build_where (dids : list Z) (cutoff : option Z) (opts : ExportOptions)
    : list clause * list param :=
  let where_clauses := [Atom (DidIn dids)] in
  let params : list param := [] in
  (* Time filter on revlog.id *)
  let '(where_clauses, params) :=
    match cutoff with
    | Some c => (where_clauses ++ [Atom IdGe], params ++ [PInt c])
    | None => (where_clauses, params)
    end in
  (* Tag filter (note tags) *)
  let '(where_clauses, params) :=
    match tags_filter opts with
    | Some ((_ :: _) as tags) =>
        let tag_clauses := map (fun _ : str => TagsLike) tags in
        let params :=
          params ++ map (fun tag => PText (tag_pattern tag)) tags in
        match tag_clauses with
        | [] => (where_clauses, params)
        | _ => (where_clauses ++ [AnyOf tag_clauses], params)
        end
    | _ => (where_clauses, params)
    end in
  (* Minimum interval filter *)
  match min_interval opts with
  | Some m => (where_clauses ++ [Atom IvlGe], params ++ [PInt m])
  | None => (where_clauses, params)
  end.

(** [{d.id: d.name for d in col.decks.all_names_and_ids()}] *)
Definition deck_names_of (col : Collection) : gmap Z str :=
  fold_left (fun m d => <[fst d := snd d]> m) (all_names_and_ids (decks col)) ∅.

(** The selection of the fields of a row. *)
Definition select_fields (field_indexes : option (list Z)) (raw_fields : list str)
    : result (list str) :=
  match field_indexes with
  | Some idxs =>
      fold_left
        (fun acc idx =>
           selected ← acc;
           if (0 <=? idx)%Z && (idx <? Z.of_nat (length raw_fields))%Z then
             v ← getitem raw_fields idx;
             Ok (selected ++ [clean_field_value v])
           else Ok selected)
        idxs (Ok [])
  | None => Ok (map clean_field_value raw_fields)
  end.

(** [flds.split("\x1f") if flds else []] *)
Definition raw_fields_of (flds : str) : list str :=
  match flds with
  | [] => []
  | _ => split_on 31 flds
  end.

(** The JSON object of a row. *)
Definition row_object (opts : ExportOptions) (deck_names : gmap Z str)
    (row : Row) : result (list (str * json)) :=
  let raw_fields := raw_fields_of (n_flds row) in
  fields ← select_fields (field_indexes opts) raw_fields;
  ts_iso ← ts_iso_of (r_id row);
  if compact_schema opts then
    (* Compact schema: short keys, no IDs/deck_name/ts_ms *)
    Ok [ (lit "t", JStr ts_iso);
         (lit "rt", JInt (r_type row));
         (lit "e", JInt (r_ease row));
         (lit "i", JInt (r_ivl row));
         (lit "li", JInt (r_lastIvl row));
         (lit "f", JInt (r_factor row));
         (lit "ms", JInt (r_time row));
         (lit "flds", JStrs fields) ]
  else
    (* Verbose schema (original) *)
    let obj :=
      [ (lit "ts_iso", JStr ts_iso);
        (lit "ease", JInt (r_ease row));
        (lit "interval", JInt (r_ivl row));
        (lit "last_interval", JInt (r_lastIvl row));
        (lit "factor", JInt (r_factor row));
        (lit "review_time_ms", JInt (r_time row));
        (lit "review_type", JInt (r_type row));
        (lit "fields", JStrs fields) ] in
    (* Optional schema elements *)
    let obj :=
      if include_ts_ms opts then dict_set (lit "ts_ms") (JInt (r_id row)) obj
      else obj in
    let obj :=
      if include_ids opts then
        dict_set (lit "deck_id") (JInt (c_did row))
          (dict_set (lit "note_id") (JInt (c_nid row))
             (dict_set (lit "card_id") (JInt (r_cid row)) obj))
      else obj in
    let obj :=
      if include_deck_name opts then
        dict_set (lit "deck_name")
          (JStr (default unknown (deck_names !! c_did row))) obj
      else obj in
    Ok obj.

(** The files: a path to the text of the file. [open(path, "w")] leaves the
    file empty and [fh.write(s)] puts [s] at its end. *)
Definition open_w (path : str) (fs : gmap str str) : gmap str str :=
  <[path := []]> fs.

Definition write (path : str) (s : str) (fs : gmap str str) : gmap str str :=
  alter (fun content => content ++ s) path fs.

(** The variables of the loop over the rows. *)
Record Progress := {
  p_count : nat;
  p_first_ts_ms : option Z;
  p_last_ts_ms : option Z
}.

(** The loop [for row in col.db.execute(sql, *params)]. An exception leaves
    the file with the lines written before it. *)
Fixpoint export_rows (opts : ExportOptions) (deck_names : gmap Z str)
    (rows : list Row) (fs : gmap str str) (p : Progress)
    : gmap str str * result Progress :=
  match rows with
  | [] => (fs, Ok p)
  | row :: rows' =>
      let ts_ms := r_id row in
      (* Track actual date range covered *)
      let first :=
        match p_first_ts_ms p with
        | None => Some ts_ms
        | Some f => Some f
        end in
      let last := Some ts_ms in
      match row_object opts deck_names row with
      | Raise e => (fs, Raise e)
      | Ok obj =>
          let fs := write (out_path opts) (dumps obj ++ [10]) fs in
          export_rows opts deck_names rows' fs
            {| p_count := S (p_count p);
               p_first_ts_ms := first;
               p_last_ts_ms := last |}
      end
  end.

(** [limit] is the interpreter's bound on nested calls, [now_sec] what
    [time.time()] gives, [fs] the files before the run. *)
Definition export_llm_stats (limit : nat) (now_sec : spec_float)
    (fs : gmap str str) (col : Collection) (opts : ExportOptions)
    : gmap str str * result ExportResult :=
  match _deck_and_child_ids limit col (deck_id opts) with
  | Raise e => (fs, Raise e)
  | Ok dids =>
      match cutoff_ms now_sec (days opts) with
      | Raise e => (fs, Raise e)
      | Ok cutoff =>
          let '(where_clauses, params) := build_where dids cutoff opts in
          (* Preload deck names *)
          let deck_names := deck_names_of col in
          let root_deck_name := default unknown (deck_names !! deck_id opts) in
          let rows := db_execute col where_clauses params in
          let fs := open_w (out_path opts) fs in
          match
            export_rows opts deck_names rows fs
              {| p_count := O; p_first_ts_ms := None; p_last_ts_ms := None |}
          with
          | (fs, Raise e) => (fs, Raise e)
          | (fs, Ok p) =>
              (fs,
               Ok {| count := p_count p;
                     first_ts_ms := p_first_ts_ms p;
                     last_ts_ms := p_last_ts_ms p;
                     deck_name := root_deck_name |})
          end
      end
  end.

End Exporter.

(** ** The dialog

    The widgets of [LLMStatsDialog] that the getters read, with what they
    hold when the dialog is closed. *)

Record LLMStatsDialog := {
  deck_combo : QComboBox Z;
  range_combo : QComboBox (option Z);
  custom_days_spin : Z;
  path_edit : str;
  field_indexes_edit : str;
  tags_edit : str;
  min_interval_spin : Z;
  include_ids_checkbox : bool;
  include_deck_name_checkbox : bool;
  include_ts_ms_checkbox : bool;
  compact_schema_checkbox : bool
}.

(** [a <= b] on two [str]: by the first code point that differs, a prefix
    before what it is a prefix of. *)
Fixpoint str_le (a b : str) : bool :=
  match a, b with
  | [], _ => true
  | _ :: _, [] => false
  | c :: a', d :: b' => (c <? d) || ((c =? d) && str_le a' b')
  end.

(** [l.sort(key=key)] with keys that are [str]: the sort is stable, so an
    element goes before the elements behind it whose key is not smaller. *)
Fixpoint insert_by_key {A} (key : A -> str) (x : A) (l : list A) : list A :=
  match l with
  | [] => [x]
  | y :: l' =>
      if str_le (key x) (key y) then x :: l else y :: insert_by_key key x l'
  end.

Definition sort_by_key {A} (key : A -> str) (l : list A) : list A :=
  foldr (insert_by_key key) [] l.

(** What [on_export_llm_stats] comes to: it returns at once, [int(None)]
    raises, a tooltip is shown, or the export is run in the background with
    these options. *)
Inductive Action :=
| Return_
| RaiseTypeError
| Tooltip (msg : str)
| RunInBackground (opts : ExportOptions).

Section Glue.

Variable py_int : str -> option Z.
Variable str_lower : str -> str.

(** Populate the deck list using [mw.col.decks.all_names_and_ids()]. *)
Definition _populate_decks (col : Collection) (combo : QComboBox Z) : QComboBox Z :=
  let combo := clear combo in
  let decks_ := all_names_and_ids (decks col) in
  let decks_ := sort_by_key (fun d : Z * str => str_lower (snd d)) decks_ in
  fold_left (fun combo d => addItem (snd d) (fst d) combo) decks_ combo.

(** The widgets as [__init__] leaves them; [default_path] is the path it
    puts together from the profile folder. *)
Definition new_dialog (col : Collection) (default_path : str) : LLMStatsDialog :=
  {| deck_combo := _populate_decks col {| items := []; currentIndex := -1 |};
     range_combo :=
       fold_left (fun combo opt => addItem (tr_label opt) (tr_days opt) combo)
         TIME_RANGE_OPTIONS {| items := []; currentIndex := -1 |};
     custom_days_spin := 0;
     path_edit := default_path;
     field_indexes_edit := [];
     tags_edit := [];
     min_interval_spin := 0;
     include_ids_checkbox := false;
     include_deck_name_checkbox := false;
     include_ts_ms_checkbox := false;
     compact_schema_checkbox := false |}.

(** Show the configuration dialog and run the export in the background.
    [col] is [mw.col], [accepted] what [dlg.exec()] returns and [dlg] the
    dialog as the user leaves it. *)
Definition on_export_llm_stats (col : option Collection) (accepted : bool)
    (dlg : LLMStatsDialog) : Action :=
  match col with
  | None => Return_
  | Some _ =>
      if negb accepted then Return_
      else
        match selected_deck_id (deck_combo dlg) with
        | None => RaiseTypeError
        | Some deck_id =>
            let days :=
              selected_days (custom_days_spin dlg)
                (mjoin (currentData (range_combo dlg))) in
            let out_path := output_path (path_edit dlg) in
            let field_indexes :=
              selected_field_indexes py_int (field_indexes_edit dlg) in
            let tags_filter := selected_tags str_lower (tags_edit dlg) in
            let min_interval := min_interval_of (min_interval_spin dlg) in
            let include_ids := include_ids_checkbox dlg in
            let include_deck_name := include_deck_name_checkbox dlg in
            let include_ts_ms := include_ts_ms_checkbox dlg in
            let compact_schema := compact_schema_checkbox dlg in
            match out_path with
            | [] => Tooltip (lit "Invalid file path.")
            | _ =>
                RunInBackground
                  {| deck_id := deck_id;
                     days := days;
                     out_path := out_path;
                     field_indexes := field_indexes;
                     tags_filter := tags_filter;
                     min_interval := min_interval;
                     include_ids := include_ids;
                     include_deck_name := include_deck_name;
                     include_ts_ms := include_ts_ms;
                     compact_schema := compact_schema |}
            end
        end
  end.

End Glue.

(** ** The date range of the summary *)

Section LocalTime.

(** The offset of the local time from UTC, in seconds, at an instant. *)
Variable utc_offset : Z -> Z.

(** [time.localtime] on whole seconds. *)
Definition localtime (secs : Z) : struct_time :=
  gmtime (secs + utc_offset secs).

(** [time.strftime("%Y-%m-%d", t)] *)
Definition strftime_date (t : struct_time) : str :=
  repr_int (tm_year t) ++ [45] ++ two_digits (tm_mon t) ++ [45]
  ++ two_digits (tm_mday t).

(** [time.strftime("%Y-%m-%d", time.localtime(ts_ms / 1000.0))] *)
Definition local_date_of (ts_ms : Z) : result str :=
  t ← float_of_int ts_ms;
  secs ← floor_of_float (SFdiv prec emax t thousand);
  Ok (strftime_date (localtime secs)).

(** Format the date range for display in the summary. *)
Definition _format_date_range (first_ts_ms last_ts_ms : option Z) : result str :=
  match first_ts_ms, last_ts_ms with
  | Some first_ts_ms, Some last_ts_ms =>
      (* Use local time for display *)
      start_str ← local_date_of first_ts_ms;
      end_str ← local_date_of last_ts_ms;
      if bool_decide (start_str = end_str) then Ok start_str
      else Ok (start_str ++ [32; 8211; 32] ++ end_str)
  | _, _ => Ok (lit "N/A")
  end.

End LocalTime.

(** * Specified properties

    Predicates on texts, the observations of a run, and the selection and
    parsing as the specification words them. *)

(** ** Properties of a cleaned text *)




(** ** Tags *)



(** ** The words of a text *)

Definition starts_ws (t : str) : bool :=
  match t with
  | c :: _ => isspace c
  | [] => false
  end.

Local Open Scope Z_scope.

(** ** What a run selects and writes *)

(** The four filters of the statement, each on one row. *)
Definition deck_filter (dids : list Z) (row : Row) : bool :=
  existsb (Z.eqb (c_did row)) dids.

Definition time_filter (cutoff : option Z) (row : Row) : bool :=
  match cutoff with
  | Some c => c <=? r_id row
  | None => true
  end.

Definition tag_filter (tags : option (list str)) (row : Row) : bool :=
  match tags with
  | Some ((_ :: _) as tags) =>
      existsb (fun tag => sql_like (tag_pattern tag) (n_tags row)) tags
  | _ => true
  end.

Definition interval_filter (least : option Z) (row : Row) : bool :=
  match least with
  | Some m => m <=? r_ivl row
  | None => true
  end.

(** The rows the statement of a run yields, in their order; none when the
    run stops before the statement. *)
Definition exported_rows (limit : nat) (now_sec : spec_float)
    (col : Collection) (opts : ExportOptions) : list Row :=
  match _deck_and_child_ids limit col (deck_id opts),
        cutoff_ms now_sec (days opts) with
  | Ok dids, Ok cutoff =>
      db_execute col (build_where dids cutoff opts).1 (build_where dids cutoff opts).2
  | _, _ => []
  end.

(** The line of the file for an object. *)
Definition line_of (obj : list (str * json)) : str := dumps obj ++ [10%N].

(** The text a run of the loop puts behind what the file holds, and the
    exception that ends it, if one does. *)
Fixpoint lines_written (html5 : gmap str str) (opts : ExportOptions)
    (deck_names : gmap Z str) (rows : list Row) : str * option exn :=
  match rows with
  | [] => ([], None)
  | row :: rows' =>
      match row_object html5 opts deck_names row with
      | Raise e => ([], Some e)
      | Ok obj =>
          let '(text, e) := lines_written html5 opts deck_names rows' in
          (line_of obj ++ text, e)
      end
  end.

(** The variables of the loop after [rows]. *)
Definition advance (p : Progress) (rows : list Row) : Progress :=
  {| p_count := p_count p + length rows;
     p_first_ts_ms :=
       match p_first_ts_ms p with
       | Some f => Some f
       | None => head (map r_id rows)
       end;
     p_last_ts_ms :=
       match last (map r_id rows) with
       | Some l => Some l
       | None => p_last_ts_ms p
       end |}.

Definition id_le (a b : Row) : Prop := r_id a <= r_id b.


(** ** Field selection *)



(** The options with other inclusion flags. *)
Definition with_flags (ids name ts : bool) (o : ExportOptions) : ExportOptions :=
  {| deck_id := deck_id o; days := days o; out_path := out_path o;
     field_indexes := field_indexes o; tags_filter := tags_filter o;
     min_interval := min_interval o;
     include_ids := ids; include_deck_name := name; include_ts_ms := ts;
     compact_schema := compact_schema o |}.

(** The key under which an object holds the fields. *)
Definition fields_key (opts : ExportOptions) : str :=
  if compact_schema opts then lit "flds" else lit "fields".

Ltac find_entry :=
  rewrite list_elem_of_In; vm_compute;
  repeat first [left; reflexivity | right].

(** ** The compact schema *)

Definition compact_keys : list str :=
  [lit "t"; lit "rt"; lit "e"; lit "i"; lit "li"; lit "f"; lit "ms"; lit "flds"].

Definition verbose_only_keys : list str :=
  [lit "ts_ms"; lit "card_id"; lit "note_id"; lit "deck_id"; lit "deck_name"].


(** ** The deck resolver *)

(** One turn of the loop of [collect] at [limit]. *)
Definition collect_step (col : Collection) (limit : nat)
    (r : result (list Z)) (c : str * Z) : result (list Z) :=
  acc ← r; collect limit col c.2 (acc ++ [c.2]).

(** The resolver takes the path of the recursive descent. *)
Definition takes_fallback (col : Collection) (deck_id : Z) : Prop :=
  match deck_and_child_ids (decks col) with
  | None => True
  | Some bulk => is_ok (bulk deck_id) = false
  end.

(** ** The dialog *)

(** The index a part of the text gives, when it gives one. *)
Definition valid_index (py_int : str -> option Z) (part : str) : option Z :=
  match strip part with
  | [] => None
  | p =>
      match py_int p with
      | Some i => if 0 <=? i then Some i else None
      | None => None
      end
  end.

(** [l or None] *)
Definition nonempty_or_none {A} (l : list A) : option (list A) :=
  match l with
  | [] => None
  | _ => Some l
  end.

Definition nonempty (s : str) : bool :=
  match s with [] => false | _ => true end.

(** ** Lines and tags *)

(** The number of newline characters of a text. *)
Definition newlines (s : str) : nat :=
  length (filter (fun c : char => c = 10%N) s).

(** Equality of two texts up to the case of the ASCII letters. *)
Definition ascii_ci_eq (a b : str) : Prop :=
  Forall2 (fun c d => ascii_upper c = ascii_upper d) a b.

(** A tag without the wildcards [%] and [_] of LIKE. *)
Definition wildcard_free (tag : str) : Prop :=
  Forall (fun c : char => c <> 37%N /\ c <> 95%N) tag.

(** [u] stands in [t] between two spaces. *)
Definition between_spaces (u t : str) : Prop :=
  exists pre post, t = pre ++ [space] ++ u ++ [space] ++ post.

(** ** Sample data *)

Definition sample_row (id did : Z) (flds tags : str) : Row :=
  {| r_id := id; r_cid := 11; c_nid := 21; c_did := did; r_ease := 3;
     r_ivl := 4; r_lastIvl := 2; r_factor := 2500; r_time := 5000;
     r_type := 1; n_flds := flds; n_tags := tags |}.

(** Deck 1 with the child 2, on a deck manager without the bulk query. *)
Definition sample_decks : DeckManager :=
  {| deck_and_child_ids := None;
     children := fun d => if d =? 1 then [(lit "A::B", 2)] else [];
     all_names_and_ids := [(1, lit "A"); (2, lit "A::B")] |}.

Definition row_1000 : Row := sample_row 1000 1 (lit "<b>Hi</b>") (lit " abc ").
Definition row_2000 : Row := sample_row 2000 2 (lit "Bye [sound:x.mp3]") (lit " verb ").
Definition row_3000 : Row := sample_row 3000 1 (lit "  spaced  out  ") (lit "  ").

Definition sample_col : Collection :=
  {| decks := sample_decks; db := [row_3000; row_1000; row_2000] |}.

Definition sample_opts : ExportOptions :=
  {| deck_id := 1; days := None; out_path := lit "out.jsonl";
     field_indexes := None; tags_filter := None; min_interval := None;
     include_ids := false; include_deck_name := false;
     include_ts_ms := false; compact_schema := false |}.

Definition float_of_Z (z : Z) : spec_float := binary_normalize prec emax z 0 false.

Definition with_days (d : option Z) (o : ExportOptions) : ExportOptions :=
  {| deck_id := deck_id o; days := d; out_path := out_path o;
     field_indexes := field_indexes o; tags_filter := tags_filter o;
     min_interval := min_interval o; include_ids := include_ids o;
     include_deck_name := include_deck_name o;
     include_ts_ms := include_ts_ms o; compact_schema := compact_schema o |}.

Definition with_tags (t : option (list str)) (o : ExportOptions) : ExportOptions :=
  {| deck_id := deck_id o; days := days o; out_path := out_path o;
     field_indexes := field_indexes o; tags_filter := t;
     min_interval := min_interval o; include_ids := include_ids o;
     include_deck_name := include_deck_name o;
     include_ts_ms := include_ts_ms o; compact_schema := compact_schema o |}.

Definition with_compact (b : bool) (o : ExportOptions) : ExportOptions :=
  {| deck_id := deck_id o; days := days o; out_path := out_path o;
     field_indexes := field_indexes o; tags_filter := tags_filter o;
     min_interval := min_interval o; include_ids := include_ids o;
     include_deck_name := include_deck_name o;
     include_ts_ms := include_ts_ms o; compact_schema := b |}.

Definition day_opts : ExportOptions := with_days (Some 1) sample_opts.

Definition sample_result : ExportResult :=
  {| count := 3; first_ts_ms := Some 1000; last_ts_ms := Some 3000;
     deck_name := lit "A" |}.

(** The compact object of [row_1000]. *)
Definition compact_row_1000 : list (str * json) :=
  [ (lit "t", JStr (lit "1970-01-01T00:00:01Z")); (lit "rt", JInt 1);
    (lit "e", JInt 3); (lit "i", JInt 4); (lit "li", JInt 2);
    (lit "f", JInt 2500); (lit "ms", JInt 5000);
    (lit "flds", JStrs [lit "Hi"]) ].



(** ** The deck hierarchy *)

(** [b] is one of the decks [children] gives for [a]. *)
Definition child (col : Collection) (a b : Z) : Prop :=
  exists name, (name, b) ∈ children (decks col) a.

(** A deck that reaches a deck that is among its own descendants. *)
Definition reaches_loop (col : Collection) (d : Z) : Prop :=
  exists c, rtc (child col) d c /\ tc (child col) c c.

(** Two decks, each the child of the other, on a deck manager without the
    bulk query. *)
Definition looping_decks : DeckManager :=
  {| deck_and_child_ids := None;
     children :=
       fun d => if d =? 1 then [(lit "A::B", 2)]
                else if d =? 2 then [(lit "A", 1)] else [];
     all_names_and_ids := [(1, lit "A"); (2, lit "A::B")] |}.

Definition looping_col : Collection :=
  {| decks := looping_decks; db := [row_1000] |}.

Local Open Scope N_scope.

(** ** Texts without markup *)

(** A text with none of the characters that start what the cleaner removes
    or decodes: no [<], no [&], no opening square bracket. *)
Definition plain (t : str) : Prop :=
  Forall (fun c : char => c <> lt /\ c <> amp /\ c <> 91) t.

(** What stands between the brackets of a tag: some characters, none of them
    a bracket of either kind or a [&]. *)
Definition tag_body (t : str) : Prop :=
  t <> [] /\ Forall (fun c : char => c <> gt /\ c <> 93) t /\ plain t.

(** [u] is the text [p] up to the case of its letters, as [re.IGNORECASE]
    takes it. *)
Definition ignorecase_eq (p u : str) : Prop :=
  Forall2 (fun a c => char_matches true a c = true) p u.

(** A word: some characters, none of them whitespace. *)
Definition word (w : str) : Prop :=
  w <> [] /\ Forall (fun c => isspace c = false) w.

Local Open Scope Z_scope.

(** ** The statement and its parameters *)

(** The type of a bound parameter. *)
Inductive param_type := TInt | TText.

Definition type_of_param (p : param) : param_type :=
  match p with
  | PInt _ => TInt
  | PText _ => TText
  end.

(** The placeholders [?] of a condition, each with the type of the column
    it is compared with. *)
Definition atom_placeholders (a : atom) : list param_type :=
  match a with
  | DidIn _ => []
  | IdGe => [TInt]
  | TagsLike => [TText]
  | IvlGe => [TInt]
  end.

Definition clause_placeholders (c : clause) : list param_type :=
  match c with
  | Atom a => atom_placeholders a
  | AnyOf l => concat (map atom_placeholders l)
  end.

(** The options with the three filters on the reviews taken off. *)
Definition without_filters (o : ExportOptions) : ExportOptions :=
  {| deck_id := deck_id o; days := None; out_path := out_path o;
     field_indexes := field_indexes o; tags_filter := None;
     min_interval := None; include_ids := include_ids o;
     include_deck_name := include_deck_name o;
     include_ts_ms := include_ts_ms o; compact_schema := compact_schema o |}.

(** The filters on the reviews of a run with this cutoff. *)
Definition review_filters (cutoff : option Z) (opts : ExportOptions) (row : Row)
    : bool :=
  time_filter cutoff row && tag_filter (tags_filter opts) row
  && interval_filter (min_interval opts) row.

(** ** The verbose schema *)

Definition verbose_keys : list str :=
  [lit "ts_iso"; lit "ease"; lit "interval"; lit "last_interval"; lit "factor";
   lit "review_time_ms"; lit "review_type"; lit "fields"].

(** The keys the inclusion flags add, in the order in which they come. *)
Definition optional_keys (opts : ExportOptions) : list str :=
  (if include_ts_ms opts then [lit "ts_ms"] else [])
  ++ (if include_ids opts then [lit "card_id"; lit "note_id"; lit "deck_id"] else [])
  ++ (if include_deck_name opts then [lit "deck_name"] else []).

(** A row that cannot be projected: its timestamp is beyond the floats. *)
Definition row_beyond_floats : Row :=
  sample_row (2 ^ 1024) 1 (lit "late") (lit " ").

Definition col_beyond_floats : Collection :=
  {| decks := sample_decks; db := [row_beyond_floats; row_1000] |}.

(** ** The fields of a note *)

(** The number of field separators of the text of the fields. *)
Definition separators (flds : str) : nat :=
  length (filter (fun c : char => c = 31%N) flds).

(** A note with three fields, the second of them empty, and the verbose
    object of a review of it. *)
Definition row_three_fields : Row :=
  sample_row 1000 1 (lit "<b>Hi" ++ [31%N; 31%N] ++ lit "Bye") (lit " ").

Definition object_three_fields : list (str * json) :=
  [ (lit "ts_iso", JStr (lit "1970-01-01T00:00:01Z"));
    (lit "ease", JInt 3); (lit "interval", JInt 4);
    (lit "last_interval", JInt 2); (lit "factor", JInt 2500);
    (lit "review_time_ms", JInt 5000); (lit "review_type", JInt 1);
    (lit "fields", JStrs [lit "Hi"; []; lit "Bye"]) ].

(** The verbose object of [row_2000] with every inclusion flag set. *)
Definition object_all_flags : list (str * json) :=
  [ (lit "ts_iso", JStr (lit "1970-01-01T00:00:02Z"));
    (lit "ease", JInt 3); (lit "interval", JInt 4);
    (lit "last_interval", JInt 2); (lit "factor", JInt 2500);
    (lit "review_time_ms", JInt 5000); (lit "review_type", JInt 1);
    (lit "fields", JStrs [lit "Bye"]);
    (lit "ts_ms", JInt 2000); (lit "card_id", JInt 11);
    (lit "note_id", JInt 21); (lit "deck_id", JInt 2);
    (lit "deck_name", JStr (lit "A::B")) ].

(** ** The dialog *)

(** The items of the combo box of the time ranges, as [__init__] adds
    them. *)
Definition range_items : list (str * option Z) :=
  map (fun opt => (tr_label opt, tr_days opt)) TIME_RANGE_OPTIONS.

(** The key by which the decks are sorted. *)
Definition lower_name (str_lower : str -> str) (d : Z * str) : str :=
  str_lower d.2.

(** The order of the elements of a list by their keys. *)
Definition key_le {A} (key : A -> str) (a b : A) : Prop :=
  str_le (key a) (key b) = true.

(** The order of the decks in the combo box. *)
Definition name_le (str_lower : str -> str) (a b : Z * str) : Prop :=
  str_le (lower_name str_lower a) (lower_name str_lower b) = true.

(** A text with a character that is no whitespace. *)
Definition not_blank (s : str) : Prop :=
  exists c, c ∈ s /\ isspace c = false.

(** A dialog on the sample collection, left as it is shown but for the
    texts of the tags and the field indices. *)
Definition sample_dialog : LLMStatsDialog :=
  {| deck_combo :=
       _populate_decks (fun s => s) sample_col {| items := []; currentIndex := -1 |};
     range_combo := {| items := range_items; currentIndex := 0 |};
     custom_days_spin := 0;
     path_edit := lit " out.jsonl ";
     field_indexes_edit := lit "0, x, -1";
     tags_edit := lit "verb, noun";
     min_interval_spin := 0;
     include_ids_checkbox := false;
     include_deck_name_checkbox := false;
     include_ts_ms_checkbox := false;
     compact_schema_checkbox := false |}.

(** An [int] for the examples: the texts [0] and [-1] and nothing else. *)
Definition sample_int (s : str) : option Z :=
  if bool_decide (s = lit "0") then Some 0
  else if bool_decide (s = lit "-1") then Some (-1)
  else None.

Definition sample_dialog_opts : ExportOptions :=
  {| deck_id := 1; days := Some 1; out_path := lit "out.jsonl";
     field_indexes := Some [0]; tags_filter := Some [lit "verb"; lit "noun"];
     min_interval := None; include_ids := false; include_deck_name := false;
     include_ts_ms := false; compact_schema := false |}.

(** ** Texts that the getters read back *)

(** A tag as the user writes it: some characters, none of them whitespace or
    a comma. *)
Definition tag_word (w : str) : Prop :=
  w <> [] /\ Forall (fun c : char => isspace c = false /\ c <> 44%N) w.

(** What stands between two tags: some commas and whitespace. *)
Definition tag_separator (sep : str) : Prop :=
  sep <> [] /\ Forall (fun c : char => c = 44%N \/ isspace c = true) sep.

(** A decimal digit. *)
Definition digit (c : char) : Prop := (48 <= c <= 57)%N.

(** The local time of the examples: one hour east of UTC. *)
Definition sample_offset (secs : Z) : Z := 3600.



(** * Proofs *)

Local Open Scope N_scope.

(** ** [re.sub] *)

Lemma re_sub_from_drop m k t :
  re_sub_from m k t = re_sub_from m O (drop k t).
Proof.
  revert k. induction t as [|c t IH]; intros [|k]; simpl; auto.
Qed.

Lemma sub_nil p repl : sub p repl [] = [].
Proof. reflexivity. Qed.

Lemma sub_cons p repl c t :
  sub p repl (c :: t) =
  match p (c :: t) with
  | Some (S k) => repl ++ sub p repl (drop k t)
  | _ => c :: sub p repl t
  end.
Proof.
  unfold sub, re_sub. simpl.
  destruct (p (c :: t)) as [[|k]|]; simpl; auto.
  by rewrite re_sub_from_drop.
Qed.


(** ** Whitespace *)

Lemma drop_ws_run t : drop (ws_run t) t = lstrip t.
Proof.
  induction t as [|c t IH]; simpl; auto.
  destruct (isspace c); simpl; auto.
Qed.

Lemma lstrip_head t c : head (lstrip t) = Some c -> isspace c = false.
Proof.
  induction t as [|d t IH]; simpl; [done|].
  destruct (isspace d) eqn:E; simpl; auto. by intros [= <-].
Qed.

Lemma sub_ws_cons c t :
  sub _WS_RE [space] (c :: t) =
  if isspace c then space :: sub _WS_RE [space] (lstrip t)
  else c :: sub _WS_RE [space] t.
Proof.
  rewrite sub_cons. unfold _WS_RE. simpl.
  destruct (isspace c); simpl; auto.
  by rewrite drop_ws_run.
Qed.




Lemma rstrip_head s c :
  head (rstrip s) = Some c -> head s = Some c.
Proof.
  destruct s as [|d s]; simpl; [done|].
  destruct (rstrip s); [destruct (isspace d)|]; simpl; done.
Qed.


Lemma rstrip_last s c : last (rstrip s) = Some c -> isspace c = false.
Proof.
  induction s as [|d s IH]; simpl; [done|].
  destruct (rstrip s) as [|e r] eqn:E.
  - destruct (isspace d) eqn:Ed; simpl; [done|]. by intros [= <-].
  - intros H. apply IH. by destruct r.
Qed.



Lemma tag_re_cons c r :
  _HTML_TAG_RE (c :: r) =
  if c =? lt then
    match run_until gt r with
    | Some (S n) => Some (S (S (S n)))
    | _ => None
    end
  else None.
Proof.
  unfold _HTML_TAG_RE, match_delimited. simpl.
  destruct (c =? lt); [|done].
  destruct (run_until gt r) as [[|n]|]; simpl; auto.
  do 2 f_equal. lia.
Qed.













Lemma sub_ws_cons' c t :
  sub _WS_RE [space] (c :: t) =
  if isspace c then
    if starts_ws t then sub _WS_RE [space] t
    else space :: sub _WS_RE [space] t
  else c :: sub _WS_RE [space] t.
Proof.
  rewrite sub_ws_cons. destruct (isspace c); [|done].
  destruct t as [|d t]; [done|]. simpl.
  destruct (isspace d) eqn:E; [|done]. by rewrite sub_ws_cons, E.
Qed.

Lemma split_ws_cons c t :
  split_ws (c :: t) =
  if isspace c then split_ws t
  else if starts_ws t then [c] :: split_ws t
  else match split_ws t with
       | p :: ps => (c :: p) :: ps
       | [] => [[c]]
       end.
Proof. simpl. destruct (isspace c); [done|]. by destruct t. Qed.

Lemma split_ws_words t : Forall (fun w => w <> []) (split_ws t).
Proof.
  induction t as [|c t IH]; [constructor|]. rewrite split_ws_cons.
  destruct (isspace c); [done|]. destruct (starts_ws t); [by constructor|].
  destruct IH; by constructor.
Qed.

Lemma split_ws_nonempty t :
  t <> [] -> starts_ws t = false -> split_ws t <> [].
Proof.
  destruct t as [|c t]; [done|]. intros _ E. rewrite split_ws_cons.
  simpl in E. rewrite E. destruct (starts_ws t); [done|].
  by destruct (split_ws t).
Qed.

Lemma join_nil_inv sep l : Forall (fun w => w <> []) l -> join sep l = [] -> l = [].
Proof.
  destruct 1 as [|w l Hw _]; [done|]. simpl.
  destruct w; [done|]. by destruct l.
Qed.

Lemma join_cons_word sep c p ps :
  join sep ((c :: p) :: ps) = c :: join sep (p :: ps).
Proof. by destruct ps. Qed.

Lemma rstrip_cons c s :
  rstrip (c :: s) =
  if isspace c then match rstrip s with [] => [] | r => c :: r end
  else c :: rstrip s.
Proof. simpl. by destruct (rstrip s), (isspace c). Qed.

Lemma rstrip_sub_ws t :
  rstrip (sub _WS_RE [space] t) =
  if starts_ws t then
    match split_ws t with
    | [] => []
    | l => space :: join [space] l
    end
  else join [space] (split_ws t).
Proof.
  induction t as [|c t IH]; [done|].
  rewrite sub_ws_cons', split_ws_cons.
  change (starts_ws (c :: t)) with (isspace c).
  destruct (isspace c) eqn:Ec.
  - destruct (starts_ws t) eqn:Et; [done|].
    rewrite rstrip_cons, IH. change (isspace space) with true.
    pose proof (join_nil_inv [space] _ (split_ws_words t)) as Hj.
    destruct (split_ws t) as [|p ps]; [done|].
    destruct (join [space] (p :: ps)); [by specialize (Hj eq_refl)|done].
  - rewrite rstrip_cons, Ec, IH.
    destruct (starts_ws t) eqn:Et.
    + by destruct (split_ws t).
    + destruct t as [|d t]; [done|].
      pose proof (split_ws_nonempty (d :: t) ltac:(done) Et) as Hne.
      destruct (split_ws (d :: t)) as [|p ps]; [done|].
      by rewrite join_cons_word.
Qed.

Lemma lstrip_id s : starts_ws s = false -> lstrip s = s.
Proof. destruct s as [|c s]; simpl; [done|]. by intros ->. Qed.

Lemma lstrip_starts_ws t : starts_ws (lstrip t) = false.
Proof.
  induction t as [|c t IH]; simpl; [done|].
  destruct (isspace c) eqn:E; simpl; auto.
Qed.

Lemma split_ws_lstrip t : split_ws (lstrip t) = split_ws t.
Proof.
  induction t as [|c t IH]; [done|]. rewrite split_ws_cons. simpl.
  destruct (isspace c) eqn:E; [done|]. by rewrite split_ws_cons, E.
Qed.

Lemma sub_ws_starts_ws t :
  starts_ws t = false -> starts_ws (sub _WS_RE [space] t) = false.
Proof.
  destruct t as [|c t]; [done|]. simpl. intros E. by rewrite sub_ws_cons, E.
Qed.

Lemma lstrip_sub_ws t :
  lstrip (sub _WS_RE [space] t) = sub _WS_RE [space] (lstrip t).
Proof.
  destruct t as [|c t]; [done|]. rewrite sub_ws_cons. simpl.
  destruct (isspace c) eqn:E; simpl; rewrite ?E; [|by rewrite sub_ws_cons, E].
  apply lstrip_id, sub_ws_starts_ws, lstrip_starts_ws.
Qed.

(** The last step of the cleaner is Python's [" ".join(text.split())]. *)
Lemma strip_sub_ws_join t :
  strip (sub _WS_RE [space] t) = join [space] (split_ws t).
Proof.
  unfold strip. rewrite lstrip_sub_ws, rstrip_sub_ws.
  by rewrite lstrip_starts_ws, split_ws_lstrip.
Qed.

Lemma unescape_nil html5 : unescape html5 [] = [].
Proof. reflexivity. Qed.


Local Open Scope Z_scope.

(** ** The statement *)

Lemma eval_any_tags (tags : list str) (rest : list param) (row : Row) :
  eval_any (map (fun _ : str => TagsLike) tags)
    (map (fun tag => PText (tag_pattern tag)) tags ++ rest) row =
  (existsb (fun tag => sql_like (tag_pattern tag) (n_tags row)) tags, rest).
Proof.
  induction tags as [|t tags IH]; simpl; [done|]. by rewrite IH.
Qed.

Section Where.

#[local] Arguments tag_pattern : simpl never.
#[local] Arguments sql_like : simpl never.

Lemma eval_build_where dids cutoff opts row :
  eval_where (build_where dids cutoff opts).1 (build_where dids cutoff opts).2 row =
  deck_filter dids row && time_filter cutoff row
  && tag_filter (tags_filter opts) row && interval_filter (min_interval opts) row.
Proof.
  unfold build_where, deck_filter, time_filter, tag_filter, interval_filter.
  destruct (tags_filter opts) as [[|t tags]|].
  1,3: destruct cutoff as [c|], (min_interval opts) as [m|]; simpl;
    by rewrite ?andb_true_r, ?andb_assoc.
  set (ts := t :: tags).
  change (map (fun _ : str => TagsLike) ts) with (TagsLike :: map (fun _ : str => TagsLike) tags) at 1 3.
  cbv iota.
  pose proof (eval_any_tags ts [] row) as E0. rewrite app_nil_r in E0.
  destruct cutoff as [c|], (min_interval opts) as [m|]; cbn [app fst snd eval_where eval_clause eval_atom];
    rewrite ?(eval_any_tags ts [PInt m] row), ?E0; cbn [eval_where eval_clause eval_atom];
    by rewrite ?andb_true_r, ?andb_assoc.
Qed.

End Where.

(** ** ORDER BY *)

Lemma insert_by_id_perm r l : insert_by_id r l ≡ₚ r :: l.
Proof.
  induction l as [|x l IH]; simpl; [done|].
  destruct (r_id r <=? r_id x); [done|]. rewrite IH. apply Permutation_swap.
Qed.


Lemma insert_by_id_sorted r l :
  StronglySorted id_le l -> StronglySorted id_le (insert_by_id r l).
Proof.
  induction 1 as [|x l Hs IH Hx]; simpl; [by repeat constructor|].
  destruct (Z.leb_spec (r_id r) (r_id x)) as [Hle|Hlt].
  - constructor; [by constructor|]. constructor; [done|].
    eapply Forall_impl; [done|]. unfold id_le. intros; simpl in *; lia.
  - constructor; [done|]. rewrite insert_by_id_perm.
    constructor; [unfold id_le; lia | done].
Qed.

Lemma order_by_id_sorted l : StronglySorted id_le (order_by_id l).
Proof.
  induction l as [|x l IH]; simpl; [constructor|].
  by apply insert_by_id_sorted.
Qed.

Lemma sorted_head_least l a b :
  StronglySorted id_le l -> head l = Some a -> b ∈ l -> r_id a <= r_id b.
Proof.
  destruct 1 as [|x l _ Hx]; [done|]. intros [= ->].
  rewrite elem_of_cons. intros [->|Hb]; [lia|].
  by eapply Forall_forall in Hx.
Qed.

Lemma sorted_last_greatest l z b :
  StronglySorted id_le l -> last l = Some z -> b ∈ l -> r_id b <= r_id z.
Proof.
  induction 1 as [|x l Hs IH Hx]; [done|].
  rewrite last_cons, elem_of_cons. destruct (last l) as [y|] eqn:E.
  - intros [= ->] [->|Hb]; [|by apply IH].
    eapply Forall_forall in Hx; [done|]. by eapply last_Some_elem_of.
  - intros [= ->] [->|Hb]; [lia|]. apply last_None in E. subst. by inversion Hb.
Qed.


(** ** The loop *)

Section Loop.

Context (html5 : gmap str str) (opts : ExportOptions) (names : gmap Z str).

Lemma advance_cons p row rows :
  advance p (row :: rows) =
  advance
    {| p_count := S (p_count p);
       p_first_ts_ms :=
         match p_first_ts_ms p with None => Some (r_id row) | Some f => Some f end;
       p_last_ts_ms := Some (r_id row) |}
    rows.
Proof.
  unfold advance. simpl. f_equal.
  - lia.
  - by destruct (p_first_ts_ms p).
  - change (last (r_id row :: map r_id rows)) with (last (r_id row :: map r_id rows)).
    rewrite last_cons. by destruct (last (map r_id rows)).
Qed.

Lemma export_rows_written rows fs content p :
  export_rows html5 opts names rows (<[out_path opts := content]> fs) p =
  (<[out_path opts := content ++ (lines_written html5 opts names rows).1]> fs,
   match (lines_written html5 opts names rows).2 with
   | Some e => Raise e
   | None => Ok (advance p rows)
   end).
Proof.
  revert content p. induction rows as [|row rows IH]; intros content p.
  - simpl. rewrite app_nil_r. do 2 f_equal. unfold advance. simpl.
    destruct p as [c f l]. simpl. f_equal; [lia | by destruct f].
  - simpl. destruct (row_object html5 opts names row) as [obj|e]; simpl.
    + unfold write. rewrite alter_insert_eq, IH.
      destruct (lines_written html5 opts names rows) as [text e]. simpl.
      rewrite <- app_assoc. f_equal. destruct e; [done|]. by rewrite advance_cons.
    + by rewrite app_nil_r.
Qed.

End Loop.

(** The anatomy of a run. *)
Lemma export_llm_stats_unfold html5 limit now_sec fs col opts :
  export_llm_stats html5 limit now_sec fs col opts =
  match _deck_and_child_ids limit col (deck_id opts),
        cutoff_ms now_sec (days opts) with
  | Raise e, _ => (fs, Raise e)
  | Ok _, Raise e => (fs, Raise e)
  | Ok _, Ok _ =>
      let rows := exported_rows limit now_sec col opts in
      let out := lines_written html5 opts (deck_names_of col) rows in
      (<[out_path opts := out.1]> fs,
       match out.2 with
       | Some e => Raise e
       | None =>
           Ok {| count := length rows;
                 first_ts_ms := head (map r_id rows);
                 last_ts_ms := last (map r_id rows);
                 deck_name := default unknown (deck_names_of col !! deck_id opts) |}
       end)
  end.
Proof.
  unfold export_llm_stats, exported_rows.
  destruct (_deck_and_child_ids limit col (deck_id opts)) as [dids|e]; [|done].
  destruct (cutoff_ms now_sec (days opts)) as [cutoff|e]; [|done].
  destruct (build_where dids cutoff opts) as [w ps]. simpl.
  unfold open_w. rewrite export_rows_written. simpl.
  destruct (lines_written html5 opts (deck_names_of col) (db_execute col w ps)) as [text [e|]];
    simpl; [done|].
  do 3 f_equal. by destruct (last (map r_id (db_execute col w ps))).
Qed.


Lemma lines_written_ok html5 opts names rows text :
  lines_written html5 opts names rows = (text, None) ->
  exists objs,
    Forall2 (fun row obj => row_object html5 opts names row = Ok obj) rows objs
    /\ text = concat (map line_of objs).
Proof.
  revert text. induction rows as [|row rows IH]; simpl; intros text.
  - intros [= <-]. exists []. by split; [constructor|].
  - destruct (row_object html5 opts names row) as [obj|e] eqn:E; [|done].
    destruct (lines_written html5 opts names rows) as [text' e].
    intros [= <- ->]. destruct (IH _ eq_refl) as (objs & H1 & ->).
    exists (obj :: objs). by split; [constructor|].
Qed.

(** What a run that returns has done: the decks were resolved and the cutoff
    computed, the file holds one line for each exported row, in their order,
    and the summary counts them. *)
Lemma export_llm_stats_ok html5 limit now_sec fs col opts fs' res :
  export_llm_stats html5 limit now_sec fs col opts = (fs', Ok res) ->
  let rows := exported_rows limit now_sec col opts in
  exists dids cutoff objs,
    _deck_and_child_ids limit col (deck_id opts) = Ok dids
    /\ cutoff_ms now_sec (days opts) = Ok cutoff
    /\ Forall2 (fun row obj => row_object html5 opts (deck_names_of col) row = Ok obj)
         rows objs
    /\ fs' = <[out_path opts := concat (map line_of objs)]> fs
    /\ res = {| count := length rows;
                first_ts_ms := head (map r_id rows);
                last_ts_ms := last (map r_id rows);
                deck_name := default unknown (deck_names_of col !! deck_id opts) |}.
Proof.
  rewrite export_llm_stats_unfold.
  destruct (_deck_and_child_ids limit col (deck_id opts)) as [dids|e]; [|done].
  destruct (cutoff_ms now_sec (days opts)) as [cutoff|e]; [|done].
  simpl.
  destruct (lines_written html5 opts (deck_names_of col)
              (exported_rows limit now_sec col opts)) as [text [e|]] eqn:E;
    simpl; [done|].
  intros [= <- <-].
  destruct (lines_written_ok _ _ _ _ _ E) as (objs & H1 & ->).
  by exists dids, cutoff, objs.
Qed.


Lemma exported_rows_sorted limit now_sec col opts :
  StronglySorted id_le (exported_rows limit now_sec col opts).
Proof.
  unfold exported_rows.
  destruct (_deck_and_child_ids limit col (deck_id opts)); [|constructor].
  destruct (cutoff_ms now_sec (days opts)); [|constructor].
  apply order_by_id_sorted.
Qed.

Lemma elem_of_map_r_id (rows : list Row) (t : Z) :
  t ∈ map r_id rows <-> exists row, row ∈ rows /\ t = r_id row.
Proof.
  rewrite list_elem_of_In, in_map_iff. split.
  - intros (row & <- & H). exists row. by rewrite list_elem_of_In.
  - intros (row & H & ->). exists row. by rewrite <- list_elem_of_In.
Qed.

Lemma last_map_r_id (rows : list Row) :
  last (map r_id rows) = r_id <$> last rows.
Proof.
  induction rows as [|a rows IH]; [done|].
  simpl map. rewrite !last_cons, IH. by destruct (last rows).
Qed.

(** C3: after a run that returns, the file holds the lines of the exported
    rows and the count is their number; when it is 0 both timestamps are
    absent; when it is positive both are present, the first is at most the
    last, and they are the least and the greatest timestamp of the rows
    written. *)
Theorem export_result_range (html5 : gmap str str) (limit : nat)
    (now_sec : spec_float) (fs : gmap str str) (col : Collection)
    (opts : ExportOptions) (fs' : gmap str str) (res : ExportResult) :
  export_llm_stats html5 limit now_sec fs col opts = (fs', Ok res) ->
  let rows := exported_rows limit now_sec col opts in
  let ids := map r_id rows in
  (exists objs,
     Forall2 (fun row obj => row_object html5 opts (deck_names_of col) row = Ok obj)
       rows objs
     /\ fs' !! out_path opts = Some (concat (map line_of objs)))
  /\ count res = length ids
  /\ (count res = 0%nat -> first_ts_ms res = None /\ last_ts_ms res = None)
  /\ ((0 < count res)%nat ->
      exists f l,
        first_ts_ms res = Some f /\ last_ts_ms res = Some l /\ f <= l
        /\ f ∈ ids /\ l ∈ ids /\ forall t, t ∈ ids -> f <= t <= l).
Proof.
  intros Hrun.
  apply export_llm_stats_ok in Hrun as (dids & cutoff & objs & _ & _ & Hobjs & -> & ->).
  simpl.
  pose proof (exported_rows_sorted limit now_sec col opts) as Hs.
  set (rows := exported_rows limit now_sec col opts) in *.
  split; [exists objs; by rewrite lookup_insert_eq|].
  rewrite length_map. split; [done|]. split.
  - intros E. apply nil_length_inv in E. by rewrite E.
  - intros Hpos. rewrite last_map_r_id.
    destruct rows as [|a rows'] eqn:Er; [simpl in Hpos; lia|]. rewrite <- Er in *.
    destruct (last rows) as [z|] eqn:Ez;
      [|apply last_None in Ez; congruence].
    assert (a ∈ rows) as Ha by (rewrite Er; apply elem_of_cons; auto).
    assert (z ∈ rows) as Hz by (by eapply last_Some_elem_of).
    assert (head rows = Some a) as Hh by (by rewrite Er).
    exists (r_id a), (r_id z). rewrite Er at 1. simpl.
    split; [done|]. split; [done|].
    split; [by eapply sorted_head_least|].
    split; [apply elem_of_map_r_id; eauto|].
    split; [apply elem_of_map_r_id; eauto|].
    intros t (b & Hb & ->)%elem_of_map_r_id.
    split; [by eapply sorted_head_least | by eapply sorted_last_greatest].
Qed.




(** The object of a row holds its fields under [fields_key]. *)
Lemma row_object_fields html5 opts names row obj :
  row_object html5 opts names row = Ok obj ->
  exists fields,
    select_fields html5 (field_indexes opts) (raw_fields_of (n_flds row)) = Ok fields
    /\ (fields_key opts, JStrs fields) ∈ obj.
Proof.
  unfold row_object, fields_key.
  destruct (select_fields html5 (field_indexes opts) (raw_fields_of (n_flds row)))
    as [fields|e]; [|done]. simpl.
  destruct (ts_iso_of (r_id row)) as [ts|e]; [|done]. simpl.
  generalize (default unknown (names !! c_did row)). intros name.
  destruct (compact_schema opts), (include_ts_ms opts), (include_ids opts),
    (include_deck_name opts); intros [= <-]; exists fields;
    (split; [done|]); find_entry.
Qed.


(** C4: the object of a row in compact mode has the eight short keys, none
    of [ts_ms], [card_id], [note_id], [deck_id], [deck_name], and is the
    same object whatever the inclusion flags and the deck names are. *)
Theorem compact_object_keys (html5 : gmap str str) (opts : ExportOptions)
    (names : gmap Z str) (row : Row) (obj : list (str * json)) :
  compact_schema opts = true ->
  row_object html5 opts names row = Ok obj ->
  map fst obj = compact_keys
  /\ (forall k, k ∈ verbose_only_keys -> k ∉ map fst obj)
  /\ (forall ids name ts names',
        row_object html5 (with_flags ids name ts opts) names' row = Ok obj).
Proof.
  intros Hc. unfold row_object. simpl. rewrite Hc.
  destruct (select_fields html5 (field_indexes opts) (raw_fields_of (n_flds row)))
    as [fields|e]; [|done]. simpl.
  destruct (ts_iso_of (r_id row)) as [ts|e]; [|done]. simpl.
  intros [= <-]. split; [done|]. split; [|done].
  intros k Hk Hin. simpl in Hin.
  unfold verbose_only_keys in Hk.
  rewrite !elem_of_cons in Hk. rewrite !elem_of_cons in Hin.
  rewrite elem_of_nil in Hk. rewrite elem_of_nil in Hin.
  destruct Hk as [->|[->|[->|[->|[->|[]]]]]];
    repeat (destruct Hin as [Hin|Hin]; [by vm_compute in Hin|]); done.
Qed.

(** ** Deck names *)

Lemma deck_names_fold (l : list (Z * str)) (m : gmap Z str) (id : Z) :
  id ∉ map fst l ->
  fold_left (fun m d => <[d.1 := d.2]> m) l m !! id = m !! id.
Proof.
  revert m. induction l as [|[k v] l IH]; intros m; simpl; [done|].
  rewrite not_elem_of_cons. intros [Hne Hl]. rewrite IH by done.
  by rewrite lookup_insert_ne.
Qed.








(** ** Running twice *)

Lemma exported_rows_cutoff limit now1 now2 col opts :
  cutoff_ms now1 (days opts) = cutoff_ms now2 (days opts) ->
  exported_rows limit now1 col opts = exported_rows limit now2 col opts.
Proof. unfold exported_rows. by intros ->. Qed.

(** C8 (amended): when no number of days is given, or the two runs compute
    the same cutoff, a second run with the same options on the same data
    leaves the files exactly as the first run left them, whatever the
    destination held before, and ends as the first did. *)
Theorem export_twice_same_file (html5 : gmap str str) (limit : nat)
    (now1 now2 : spec_float) (fs : gmap str str) (col : Collection)
    (opts : ExportOptions) :
  days opts = None \/ cutoff_ms now1 (days opts) = cutoff_ms now2 (days opts) ->
  let run1 := export_llm_stats html5 limit now1 fs col opts in
  let run2 := export_llm_stats html5 limit now2 run1.1 col opts in
  run2.1 = run1.1 /\ run2.2 = run1.2.
Proof.
  intros H.
  assert (cutoff_ms now1 (days opts) = cutoff_ms now2 (days opts)) as Hc.
  { destruct H as [->|H]; done. }
  clear H. intros run1 run2. subst run1 run2.
  rewrite !export_llm_stats_unfold, <- (exported_rows_cutoff _ _ _ _ _ Hc), <- Hc.
  destruct (_deck_and_child_ids limit col (deck_id opts)); [|done].
  destruct (cutoff_ms now1 (days opts)); [|done]. simpl.
  by rewrite insert_insert_eq.
Qed.

Section Collect.

Context (col : Collection).

Lemma collect_S limit did acc :
  collect (S limit) col did acc =
  fold_left (collect_step col limit) (children (decks col) did) (Ok acc).
Proof. reflexivity. Qed.

Lemma fold_collect_raise limit cs e :
  fold_left (collect_step col limit) cs (Raise e) = Raise e.
Proof. induction cs as [|c cs IH]; simpl; auto. Qed.





End Collect.

Lemma deck_and_child_ids_fallback limit col deck_id :
  takes_fallback col deck_id ->
  _deck_and_child_ids limit col deck_id = collect limit col deck_id [deck_id].
Proof.
  unfold takes_fallback, _deck_and_child_ids.
  destruct (deck_and_child_ids (decks col)) as [bulk|]; [|done].
  by destruct (bulk deck_id).
Qed.


Section DialogProofs.

Context (py_int : str -> option Z) (str_lower : str -> str).

Lemma field_index_step_valid idxs part :
  field_index_step py_int idxs part =
  idxs ++ match valid_index py_int part with Some i => [i] | None => [] end.
Proof.
  unfold field_index_step, valid_index.
  destruct (strip part) as [|c p]; [by rewrite app_nil_r|].
  destruct (py_int (c :: p)) as [i|]; [|by rewrite app_nil_r].
  destruct (0 <=? i); [done | by rewrite app_nil_r].
Qed.

Lemma fold_field_index_step parts idxs :
  fold_left (field_index_step py_int) parts idxs = idxs ++ omap (valid_index py_int) parts.
Proof.
  revert idxs. induction parts as [|part parts IH]; intros idxs; simpl.
  - by rewrite app_nil_r.
  - rewrite IH, field_index_step_valid, <- app_assoc.
    by destruct (valid_index py_int part).
Qed.

Lemma fold_tag_step parts tags :
  fold_left (tag_step str_lower) parts tags =
  tags ++ filter (fun t => nonempty t) (map (fun p => str_lower (strip p)) parts).
Proof.
  revert tags. induction parts as [|part parts IH]; intros tags; simpl.
  - by rewrite app_nil_r.
  - rewrite IH, filter_cons. unfold tag_step.
    destruct (str_lower (strip part)) as [|c t]; simpl; [done|].
    by rewrite <- app_assoc.
Qed.

Lemma valid_index_nonneg part i : valid_index py_int part = Some i -> 0 <= i.
Proof.
  unfold valid_index. destruct (strip part); [done|].
  destruct (py_int _) as [j|]; [|done].
  destruct (Z.leb_spec 0 j); [|done]. by intros [= <-].
Qed.

End DialogProofs.

(** C9: whatever [int] accepts and whatever [str.lower] gives, the getters
    return without raising: the indices are those of the comma-separated
    parts that parse to an integer that is not negative, in their order, the
    other parts being left out; the tags are the lowered words that are not
    empty; an empty list becomes [None]; and a list that is returned is not
    empty and holds only valid entries. *)
Theorem soft_validation (py_int : str -> option Z) (str_lower : str -> str)
    (text : str) :
  selected_field_indexes py_int text =
    nonempty_or_none (omap (valid_index py_int) (split_on 44%N (strip text)))
  /\ (forall idxs, selected_field_indexes py_int text = Some idxs ->
        idxs <> [] /\ Forall (fun i => 0 <= i) idxs)
  /\ selected_tags str_lower text =
       nonempty_or_none
         (filter (fun t => nonempty t)
            (map (fun p => str_lower (strip p))
               (split_ws (replace_char 44%N space (strip text)))))
  /\ (forall tags, selected_tags str_lower text = Some tags ->
        tags <> [] /\ Forall (fun t => t <> []) tags).
Proof.
  assert (selected_field_indexes py_int text =
          nonempty_or_none (omap (valid_index py_int) (split_on 44%N (strip text)))) as E1.
  { unfold selected_field_indexes. destruct (strip text) as [|c t] eqn:E; [done|].
    by rewrite fold_field_index_step. }
  assert (selected_tags str_lower text =
          nonempty_or_none
            (filter (fun t => nonempty t)
               (map (fun p => str_lower (strip p))
                  (split_ws (replace_char 44%N space (strip text)))))) as E2.
  { unfold selected_tags. destruct (strip text) as [|c t] eqn:E; [done|].
    by rewrite fold_tag_step. }
  split; [done|]. split; [|split; [done|]].
  - rewrite E1. intros idxs H.
    destruct (omap _ _) as [|i l] eqn:E; [done|]. injection H as <-.
    split; [done|]. rewrite <- E. apply Forall_forall. intros j Hj.
    apply list_elem_of_omap in Hj as (part & _ & Hp).
    by eapply valid_index_nonneg.
  - rewrite E2. intros tags H.
    destruct (filter _ _) as [|t l] eqn:E; [done|]. injection H as <-.
    split; [done|]. rewrite <- E. apply Forall_forall. intros u Hu.
    apply list_elem_of_filter in Hu as [Hu _]. by destruct u.
Qed.

(** ** The lines of the file *)

Lemma hex_digit_not_newline n : hex_digit n <> 10%N.
Proof. unfold hex_digit. destruct (n <? 10)%N; lia. Qed.

Lemma escape_char_no_newline c : 10%N ∉ escape_char c.
Proof.
  pose proof (hex_digit_not_newline (c / 16)).
  pose proof (hex_digit_not_newline (c mod 16)).
  unfold escape_char.
  destruct (c =? 34)%N; [|destruct (c =? 92)%N; [|destruct (c =? 10)%N;
    [|destruct (c =? 13)%N; [|destruct (c =? 9)%N; [|destruct (c =? 8)%N;
    [|destruct (c =? 12)%N; [|destruct (N.ltb_spec c 32)]]]]]]];
    intros Hin%list_elem_of_In; simpl in Hin; intuition (try lia; try congruence).
Qed.

Lemma uint_digits_no_newline u : 10%N ∉ uint_digits u.
Proof.
  induction u; simpl; rewrite ?not_elem_of_cons; try (split; [done|]); try done.
  apply not_elem_of_nil.
Qed.

Lemma repr_int_no_newline z : 10%N ∉ repr_int z.
Proof.
  unfold repr_int. destruct (Z.to_int z); rewrite ?not_elem_of_cons;
    try (split; [done|]); apply uint_digits_no_newline.
Qed.

Lemma concat_no_newline (l : list str) :
  Forall (fun s => 10%N ∉ s) l -> 10%N ∉ concat l.
Proof.
  induction 1 as [|s l Hs _ IH]; simpl; [apply not_elem_of_nil|].
  rewrite elem_of_app. tauto.
Qed.

Lemma encode_str_no_newline s : 10%N ∉ encode_str s.
Proof.
  unfold encode_str. rewrite !elem_of_app, !elem_of_cons, !elem_of_nil.
  intros [[?|[]]|[H|[?|[]]]]; try done.
  revert H. apply concat_no_newline. apply Forall_forall.
  intros x (c & <- & _)%list_elem_of_In%in_map_iff. apply escape_char_no_newline.
Qed.

Lemma join_no_newline sep (l : list str) :
  10%N ∉ sep -> Forall (fun s => 10%N ∉ s) l -> 10%N ∉ join sep l.
Proof.
  intros Hsep. induction 1 as [|s l Hs Hl IH]; simpl; [apply not_elem_of_nil|].
  destruct l as [|s' l]; [done|]. rewrite !elem_of_app. tauto.
Qed.

Lemma lit_comma_no_newline : 10%N ∉ lit ", ".
Proof. by intros H%list_elem_of_In; vm_compute in H; intuition discriminate. Qed.

Lemma dumps_value_no_newline v : 10%N ∉ dumps_value v.
Proof.
  destruct v as [z|s|l]; cbn [dumps_value].
  - apply repr_int_no_newline.
  - apply encode_str_no_newline.
  - rewrite !elem_of_app.
    intros [H|[H|H]];
      [by apply list_elem_of_In in H; vm_compute in H; intuition discriminate|
      |by apply list_elem_of_In in H; vm_compute in H; intuition discriminate].
    revert H. apply join_no_newline; [apply lit_comma_no_newline|].
    apply Forall_forall. intros x (s & <- & _)%list_elem_of_In%in_map_iff.
    apply encode_str_no_newline.
Qed.

Lemma dumps_no_newline obj : 10%N ∉ dumps obj.
Proof.
  unfold dumps. rewrite !elem_of_app.
  intros [H|[H|H]];
    [by apply list_elem_of_In in H; vm_compute in H; intuition discriminate|
    |by apply list_elem_of_In in H; vm_compute in H; intuition discriminate].
  revert H. apply join_no_newline; [apply lit_comma_no_newline|].
  apply Forall_forall. intros x (kv & <- & _)%list_elem_of_In%in_map_iff.
  rewrite !elem_of_app. intros [H|[H|H]].
  - by apply encode_str_no_newline in H.
  - by apply list_elem_of_In in H; vm_compute in H; intuition discriminate.
  - by apply dumps_value_no_newline in H.
Qed.

Lemma newlines_app a b : newlines (a ++ b) = (newlines a + newlines b)%nat.
Proof. unfold newlines, str. by rewrite filter_app, length_app. Qed.

Lemma newlines_none s : 10%N ∉ s -> newlines s = 0%nat.
Proof.
  unfold newlines, str. induction s as [|c s IH]; [done|].
  rewrite not_elem_of_cons. intros [Hc Hs]. rewrite filter_cons.
  destruct (decide (c = 10%N)); [congruence | auto].
Qed.

Lemma newlines_lines objs :
  newlines (concat (map line_of objs)) = length objs.
Proof.
  induction objs as [|obj objs IH]; [done|]. cbn [map concat length].
  rewrite newlines_app, IH. unfold line_of.
  rewrite newlines_app, (newlines_none _ (dumps_no_newline obj)). done.
Qed.

(** After a run that returns, the file has as many newline characters as
    the count of the summary: one line for each record. *)
Theorem count_is_number_of_lines (html5 : gmap str str) (limit : nat)
    (now_sec : spec_float) (fs : gmap str str) (col : Collection)
    (opts : ExportOptions) (fs' : gmap str str) (res : ExportResult) :
  export_llm_stats html5 limit now_sec fs col opts = (fs', Ok res) ->
  exists content,
    fs' !! out_path opts = Some content /\ newlines content = count res.
Proof.
  intros Hrun.
  apply export_llm_stats_ok in Hrun as (dids & cutoff & objs & _ & _ & Hobjs & -> & ->).
  exists (concat (map line_of objs)). rewrite lookup_insert_eq. split; [done|].
  rewrite newlines_lines. simpl. symmetry. by eapply Forall2_length.
Qed.

Lemma count_is_number_of_lines_witness :
  (export_llm_stats html5_excerpt 5 (float_of_Z 86401) ∅ sample_col sample_opts).2
  = Ok sample_result
  /\ exists content,
       (export_llm_stats html5_excerpt 5 (float_of_Z 86401) ∅ sample_col
          sample_opts).1 !! out_path sample_opts = Some content
       /\ newlines content = count sample_result.
Proof.
  split; [vm_compute; reflexivity|].
  apply (count_is_number_of_lines html5_excerpt 5 (float_of_Z 86401) ∅
           sample_col sample_opts
           (export_llm_stats html5_excerpt 5 (float_of_Z 86401) ∅ sample_col
              sample_opts).1
           sample_result).
  vm_compute. reflexivity.
Defined.

(** ** LIKE on a tag without wildcards *)

Lemma sql_like_percent p t :
  sql_like (37%N :: p) t =
  sql_like p t
  || match t with [] => false | _ :: t' => sql_like (37%N :: p) t' end.
Proof. by destruct t. Qed.

Lemma sql_like_percent_true p t :
  sql_like (37%N :: p) t = true <->
  exists pre post, t = pre ++ post /\ sql_like p post = true.
Proof.
  induction t as [|d t IH]; rewrite sql_like_percent, orb_true_iff.
  - split.
    + intros [H|H]; [|done]. by exists [], [].
    + intros (pre & post & E & H). left.
      symmetry in E. apply app_eq_nil in E as [-> ->]. done.
  - rewrite IH. split.
    + intros [H|(pre & post & -> & H)]; [by exists [], (d :: t)|].
      by exists (d :: pre), post.
    + intros ([|e pre] & post & E & H); simpl in E.
      * left. by rewrite E.
      * right. injection E as -> ->. by exists pre, post.
Qed.

Lemma sql_like_literal c p t :
  c <> 37%N -> c <> 95%N ->
  sql_like (c :: p) t = true <->
  exists d t', t = d :: t' /\ ascii_upper c = ascii_upper d /\ sql_like p t' = true.
Proof.
  intros H1 H2. simpl.
  destruct (N.eqb_spec c 37) as [|_]; [done|].
  destruct (N.eqb_spec c 95) as [|_]; [done|].
  destruct t as [|d t]; simpl.
  - split; [done | by intros (? & ? & ? & _)].
  - rewrite andb_true_iff, N.eqb_eq. split.
    + intros [? ?]. by exists d, t.
    + by intros (? & ? & [= <- <-] & ? & ?).
Qed.

Lemma sql_like_literals w p t :
  wildcard_free w ->
  sql_like (w ++ p) t = true <->
  exists u t', t = u ++ t' /\ ascii_ci_eq w u /\ sql_like p t' = true.
Proof.
  intros Hw. revert t. induction Hw as [|c w [H1 H2] _ IH]; intros t.
  - simpl. split.
    + intros H. exists [], t. by repeat split; [constructor|].
    + intros (u & t' & -> & Hu & H). by inversion Hu.
  - change ((c :: w) ++ p) with (c :: (w ++ p)).
    rewrite (sql_like_literal _ _ _ H1 H2). split.
    + intros (d & t' & -> & Hc & (u & t'' & -> & Hu & H)%IH).
      exists (d :: u), t''. by repeat split; [constructor|].
    + intros (u & t' & -> & Hu & H). inversion Hu as [|? d ? u' Hc Hu']; subst.
      exists d, (u' ++ t'). repeat split; [done|]. apply IH. eauto.
Qed.

Lemma ascii_upper_space d : ascii_upper space = ascii_upper d -> d = space.
Proof.
  unfold ascii_upper, space. simpl.
  destruct (N.leb_spec 97 d), (N.leb_spec d 122); simpl; lia.
Qed.

Lemma sql_like_tag_pattern tag t :
  wildcard_free tag ->
  sql_like (tag_pattern tag) t = true <->
  exists u, ascii_ci_eq tag u /\ between_spaces u t.
Proof.
  intros Hw. unfold tag_pattern, between_spaces.
  change (lit "% " ++ tag ++ lit " %") with (37%N :: space :: (tag ++ [space; 37%N])).
  rewrite sql_like_percent_true. split.
  - intros (pre & post & -> & H).
    apply sql_like_literal in H as (d & t1 & -> & ->%ascii_upper_space & H); [|done..].
    apply (sql_like_literals _ _ _ Hw) in H as (u & t2 & -> & Hu & H).
    apply sql_like_literal in H as (d & t3 & -> & ->%ascii_upper_space & _); [|done..].
    exists u. split; [done|]. by exists pre, t3.
  - intros (u & Hu & pre & post & ->).
    exists pre, ([space] ++ u ++ [space] ++ post). split; [done|].
    apply sql_like_literal; [done..|]. exists space, (u ++ [space] ++ post).
    repeat split. apply (sql_like_literals _ _ _ Hw).
    exists u, ([space] ++ post). repeat split; [done|].
    apply sql_like_literal; [done..|]. exists space, post. repeat split.
    apply sql_like_percent_true. exists post, []. by rewrite app_nil_r.
Qed.

(** For requested tags without the wildcards of LIKE, the tag filter lets a
    row through exactly when one of them stands in the tags of the note
    between two spaces, up to the case of the ASCII letters. *)
Theorem tag_filter_whole_token (tags : list str) (row : Row) :
  tags <> [] -> Forall wildcard_free tags ->
  tag_filter (Some tags) row = true <->
  exists tag u,
    tag ∈ tags /\ ascii_ci_eq tag u /\ between_spaces u (n_tags row).
Proof.
  intros Hne Hw. destruct tags as [|t0 ts]; [done|].
  unfold tag_filter. rewrite existsb_exists. split.
  - intros (tag & Hin & H). apply list_elem_of_In in Hin.
    rewrite Forall_forall in Hw.
    apply (sql_like_tag_pattern _ _ (Hw _ Hin)) in H as (u & Hu & Hb). eauto.
  - intros (tag & u & Hin & Hu & Hb). exists tag. split; [by apply list_elem_of_In|].
    rewrite Forall_forall in Hw. apply (sql_like_tag_pattern _ _ (Hw _ Hin)). eauto.
Qed.

Lemma tag_filter_whole_token_witness :
  [lit "verb"] <> [] /\ Forall wildcard_free [lit "verb"]
  /\ (tag_filter (Some [lit "verb"]) row_2000 = true <->
      exists tag u,
        tag ∈ [lit "verb"] /\ ascii_ci_eq tag u
        /\ between_spaces u (n_tags row_2000)).
Proof.
  assert (Forall wildcard_free [lit "verb"]) as Hw.
  { repeat constructor; discriminate. }
  split; [discriminate|]. split; [exact Hw|].
  exact (tag_filter_whole_token [lit "verb"] row_2000 ltac:(discriminate) Hw).
Defined.

(** * Examples, witnesses and counterexamples *)

(** The scenario of the specification: three rows, verbose schema, no filter
    beyond the deck. *)
Example export_scenario :
  (export_llm_stats html5_excerpt 5 (float_of_Z 86401) ∅ sample_col sample_opts).2
  = Ok sample_result
  /\ clean_field_value html5_excerpt (lit "<b>Hi</b>") = lit "Hi"
  /\ clean_field_value html5_excerpt (lit "Bye [sound:x.mp3]") = lit "Bye"
  /\ clean_field_value html5_excerpt (lit "  spaced  out  ") = lit "spaced out"
  /\ clean_field_value html5_excerpt (lit "a&nbsp;&nbsp; b") = lit "a b".
Proof. vm_compute. repeat split. Qed.


(** The first of these texts has no character reference, so the table of
    names plays no part. *)
Lemma clean_field_value_keeps_lt (html5 : gmap str str) :
  clean_field_value html5 (lit "a<b") = lit "a<b"
  /\ lt ∈ clean_field_value html5 (lit "a<b").
Proof. split; [reflexivity|]. apply list_elem_of_In. vm_compute. tauto. Qed.


(** C3, witness: the run of the scenario. *)
Lemma export_result_range_witness :
  (export_llm_stats html5_excerpt 5 (float_of_Z 86401) ∅ sample_col sample_opts).2
  = Ok sample_result
  /\ (let rows := exported_rows 5 (float_of_Z 86401) sample_col sample_opts in
      let ids := map r_id rows in
      (exists objs,
         Forall2
           (fun row obj =>
              row_object html5_excerpt sample_opts (deck_names_of sample_col) row
              = Ok obj)
           rows objs
         /\ (export_llm_stats html5_excerpt 5 (float_of_Z 86401) ∅ sample_col
               sample_opts).1 !! out_path sample_opts
            = Some (concat (map line_of objs)))
      /\ count sample_result = length ids
      /\ (count sample_result = 0%nat ->
          first_ts_ms sample_result = None /\ last_ts_ms sample_result = None)
      /\ ((0 < count sample_result)%nat ->
          exists f l,
            first_ts_ms sample_result = Some f /\ last_ts_ms sample_result = Some l
            /\ f <= l /\ f ∈ ids /\ l ∈ ids /\ forall t, t ∈ ids -> f <= t <= l)).
Proof.
  split; [vm_compute; reflexivity|].
  apply (export_result_range html5_excerpt 5 (float_of_Z 86401) ∅ sample_col
           sample_opts
           (export_llm_stats html5_excerpt 5 (float_of_Z 86401) ∅ sample_col
              sample_opts).1
           sample_result).
  vm_compute. reflexivity.
Defined.

(** C4, witness: the compact object of a row. *)
Lemma compact_object_keys_witness :
  compact_schema (with_compact true sample_opts) = true
  /\ row_object html5_excerpt (with_compact true sample_opts) ∅ row_1000
     = Ok compact_row_1000
  /\ map fst compact_row_1000 = compact_keys
  /\ (forall k, k ∈ verbose_only_keys -> k ∉ map fst compact_row_1000)
  /\ (forall ids name ts names',
        row_object html5_excerpt
          (with_flags ids name ts (with_compact true sample_opts)) names' row_1000
        = Ok compact_row_1000).
Proof.
  split; [reflexivity|]. split; [vm_compute; reflexivity|].
  apply (compact_object_keys html5_excerpt (with_compact true sample_opts) ∅
           row_1000 compact_row_1000); [reflexivity | vm_compute; reflexivity].
Defined.

(** C5, the failing input: the requested tag [a_c] is no tag of the note
    tagged [abc], and the tag filter lets its row through; so does [a%],
    which is the start of [abc]. *)
Lemma tag_filter_wildcards :
  split_ws (n_tags row_1000) = [lit "abc"]
  /\ tag_filter (Some [lit "a_c"]) row_1000 = true
  /\ tag_filter (Some [lit "a%"]) row_1000 = true
  /\ tag_filter (Some [lit "ab"]) row_1000 = false
  /\ exported_rows 5 (float_of_Z 86401) sample_col
       (with_tags (Some [lit "a_c"]) sample_opts) = [row_1000].
Proof. vm_compute. repeat split. Qed.


(** C8, counterexample: with a window of one day, a run at 86401 s writes
    the row at 1000 ms and a run at 86402 s on the same data does not: the
    files differ. *)
Lemma export_twice_differs :
  let run1 := export_llm_stats html5_excerpt 5 (float_of_Z 86401) ∅ sample_col day_opts in
  let run2 := export_llm_stats html5_excerpt 5 (float_of_Z 86402) run1.1 sample_col day_opts in
  run1.2 = Ok sample_result
  /\ run2.2 = Ok {| count := 2; first_ts_ms := Some 2000;
                    last_ts_ms := Some 3000; deck_name := lit "A" |}
  /\ length <$> (run1.1 !! out_path day_opts) = Some 480%nat
  /\ length <$> (run2.1 !! out_path day_opts) = Some 323%nat
  /\ run1.1 !! out_path day_opts <> run2.1 !! out_path day_opts.
Proof.
  vm_compute. repeat match goal with |- _ /\ _ => split end; try reflexivity.
  intros [=].
Qed.

(** C8, witness: without a window. *)
Lemma export_twice_same_file_witness :
  days sample_opts = None
  /\ (let run1 := export_llm_stats html5_excerpt 5 (float_of_Z 86401) ∅ sample_col sample_opts in
      let run2 := export_llm_stats html5_excerpt 5 (float_of_Z 86402) run1.1 sample_col sample_opts in
      run2.1 = run1.1 /\ run2.2 = run1.2).
Proof.
  split; [reflexivity|].
  exact (export_twice_same_file html5_excerpt 5 (float_of_Z 86401)
           (float_of_Z 86402) ∅ sample_col sample_opts (or_introl eq_refl)).
Defined.

(** ** The descent through the decks *)

Section Descent.

Context (col : Collection).

Lemma tc_child_inv a d :
  tc (child col) a d <->
  exists c, c ∈ children (decks col) a /\ rtc (child col) c.2 d.
Proof.
  split.
  - intros H. destruct H as [x y [name Hn]|x y z [name Hn] H].
    + exists (name, y). split; [done|]. simpl. constructor.
    + exists (name, y). split; [done|]. simpl. by apply tc_rtc.
  - intros ([name b] & Hc & H). simpl in H.
    eapply tc_rtc_r; [|done]. apply tc_once. by exists name.
Qed.

(** What one pass over some children adds: what they reach. *)
Lemma fold_collect_reaches limit cs acc out :
  (forall did acc out,
     collect limit col did acc = Ok out ->
     exists more, out = acc ++ more
       /\ forall d, d ∈ more <-> tc (child col) did d) ->
  fold_left (collect_step col limit) cs (Ok acc) = Ok out ->
  exists more, out = acc ++ more
    /\ forall d, d ∈ more <-> exists c, c ∈ cs /\ rtc (child col) c.2 d.
Proof.
  intros IH. revert acc. induction cs as [|c cs IHc]; intros acc; simpl.
  - intros [= <-]. exists []. rewrite app_nil_r. split; [done|].
    intros d. split; [by intros ?%elem_of_nil|].
    by intros (c & ?%elem_of_nil & _).
  - destruct (collect limit col c.2 (acc ++ [c.2])) as [a1|e] eqn:E;
      [|by rewrite fold_collect_raise].
    intros H. apply IHc in H as (m2 & -> & H2).
    apply IH in E as (m1 & -> & H1).
    exists ([c.2] ++ m1 ++ m2). split; [by rewrite <- !app_assoc|].
    intros d. rewrite !elem_of_app, list_elem_of_singleton, H1, H2. split.
    + intros [->|[H|(c' & Hc' & H)]].
      * exists c. split; [apply elem_of_cons; auto | constructor].
      * exists c. split; [apply elem_of_cons; auto | by apply tc_rtc].
      * exists c'. split; [apply elem_of_cons; auto | done].
    + intros (c' & [->|Hc']%elem_of_cons & H).
      * apply rtc_tc in H as [->|H]; auto.
      * right. right. eauto.
Qed.

Lemma collect_reaches limit did acc out :
  collect limit col did acc = Ok out ->
  exists more, out = acc ++ more /\ forall d, d ∈ more <-> tc (child col) did d.
Proof.
  revert did acc out. induction limit as [|limit IH]; intros did acc out; [done|].
  rewrite collect_S. intros H.
  apply (fold_collect_reaches _ _ _ _ IH) in H as (more & -> & H).
  exists more. split; [done|]. intros d. by rewrite H, tc_child_inv.
Qed.

(** The descent raises nothing but [RecursionError]. *)
Lemma collect_raises limit did acc e :
  collect limit col did acc = Raise e -> e = RecursionError.
Proof.
  revert did acc. induction limit as [|limit IH]; intros did acc; [by intros [= <-]|].
  rewrite collect_S. generalize (children (decks col) did). intros cs.
  revert acc. induction cs as [|c cs IHc]; intros acc; simpl; [done|].
  destruct (collect limit col c.2 (acc ++ [c.2])) as [a1|e1] eqn:E.
  - apply IHc.
  - rewrite fold_collect_raise. intros [= <-]. by eapply IH.
Qed.

Lemma reaches_loop_child d :
  reaches_loop col d ->
  exists c, c ∈ children (decks col) d /\ reaches_loop col c.2.
Proof.
  intros (c & Hdc & Hcc).
  assert (tc (child col) d c) as H by (by eapply tc_rtc_l).
  apply tc_child_inv in H as (c1 & Hc1 & H1).
  exists c1. split; [done|]. by exists c.
Qed.

Lemma collect_reaches_loop limit did acc :
  reaches_loop col did -> collect limit col did acc = Raise RecursionError.
Proof.
  revert did acc. induction limit as [|limit IH]; intros did acc Hl; [done|].
  destruct (reaches_loop_child _ Hl) as (c & Hc & Hlc).
  rewrite collect_S.
  assert (forall r,
            (forall e, r = Raise e -> e = RecursionError) ->
            fold_left (collect_step col limit) (children (decks col) did) r
            = Raise RecursionError) as G; [|by apply G].
  induction Hc as [c cs|c c' cs _ IHc]; intros r Hr; simpl.
  - destruct r as [a|e]; simpl.
    + by rewrite (IH _ _ Hlc), fold_collect_raise.
    + by rewrite (Hr e eq_refl), fold_collect_raise.
  - apply IHc; [done|]. intros e. destruct r as [a|e']; simpl; [|by intros [= <-]; auto].
    apply collect_raises.
Qed.

End Descent.

(** On the path of the recursive descent, a list that is returned holds
    exactly the decks the root reaches through [children]: the root and its
    descendants of every depth. *)
Theorem deck_and_child_ids_descendants (limit : nat) (col : Collection)
    (deck_id : Z) (ids : list Z) :
  takes_fallback col deck_id ->
  _deck_and_child_ids limit col deck_id = Ok ids ->
  forall d, d ∈ ids <-> rtc (child col) deck_id d.
Proof.
  intros Hf. rewrite (deck_and_child_ids_fallback _ _ _ Hf). intros H d.
  apply collect_reaches in H as (more & -> & H).
  rewrite elem_of_app, list_elem_of_singleton, H, rtc_tc.
  split; (intros [?|?]; [left; congruence | by right]).
Qed.

Lemma deck_and_child_ids_descendants_witness :
  takes_fallback sample_col 1
  /\ _deck_and_child_ids 5 sample_col 1 = Ok [1; 2]
  /\ forall d, d ∈ [1; 2] <-> rtc (child sample_col) 1 d.
Proof.
  split; [exact I|]. split; [reflexivity|].
  exact (deck_and_child_ids_descendants 5 sample_col 1 [1; 2] I eq_refl).
Defined.

(** On the path of the recursive descent, when the root reaches a deck that
    is among its own descendants, the resolver raises [RecursionError]
    whatever the limit on nested calls, and so does the export, which then
    leaves the files as they were. *)
Theorem deck_and_child_ids_loop (html5 : gmap str str) (limit : nat)
    (now_sec : spec_float) (fs : gmap str str) (col : Collection)
    (opts : ExportOptions) (c : Z) :
  takes_fallback col (deck_id opts) ->
  rtc (child col) (deck_id opts) c -> tc (child col) c c ->
  _deck_and_child_ids limit col (deck_id opts) = Raise RecursionError
  /\ export_llm_stats html5 limit now_sec fs col opts = (fs, Raise RecursionError).
Proof.
  intros Hf H1 H2.
  assert (_deck_and_child_ids limit col (deck_id opts) = Raise RecursionError) as E.
  { rewrite (deck_and_child_ids_fallback _ _ _ Hf).
    apply collect_reaches_loop. by exists c. }
  split; [done|]. by rewrite export_llm_stats_unfold, E.
Qed.

Lemma deck_and_child_ids_loop_witness :
  takes_fallback looping_col 1
  /\ rtc (child looping_col) 1 2 /\ tc (child looping_col) 2 2
  /\ _deck_and_child_ids 1000 looping_col 1 = Raise RecursionError
  /\ export_llm_stats html5_excerpt 1000 (float_of_Z 86401) ∅ looping_col
       sample_opts = (∅, Raise RecursionError).
Proof.
  assert (child looping_col 1 2) as H12.
  { exists (lit "A::B"). apply list_elem_of_In. vm_compute. tauto. }
  assert (child looping_col 2 1) as H21.
  { exists (lit "A"). apply list_elem_of_In. vm_compute. tauto. }
  assert (rtc (child looping_col) 1 2) as R by (by apply rtc_once).
  assert (tc (child looping_col) 2 2) as T
    by (eapply tc_l; [exact H21 | by apply tc_once]).
  split; [exact I|]. split; [exact R|]. split; [exact T|].
  exact (deck_and_child_ids_loop html5_excerpt 1000 (float_of_Z 86401) ∅
           looping_col sample_opts 2 I R T).
Defined.

Local Open Scope N_scope.

(** ** Where a pattern cannot start *)

Lemma sub_skip (p : str -> option nat) repl pre t :
  (forall c r, c ∈ pre -> p (c :: r) = None) ->
  sub p repl (pre ++ t) = pre ++ sub p repl t.
Proof.
  induction pre as [|c pre IH]; intros H; [done|]. simpl.
  rewrite sub_cons, (H c) by (apply elem_of_cons; auto).
  f_equal. apply IH. intros d r Hd. apply H. apply elem_of_cons; auto.
Qed.

Lemma sub_skip_all (p : str -> option nat) repl t :
  (forall c r, c ∈ t -> p (c :: r) = None) -> sub p repl t = t.
Proof.
  intros H. rewrite <- (app_nil_r t) at 1. rewrite sub_skip by done.
  by rewrite sub_nil, app_nil_r.
Qed.

Lemma sound_re_head c r : c <> 91 -> _SOUND_RE (c :: r) = None.
Proof.
  intros Hc. unfold _SOUND_RE, match_delimited.
  change (lit "[sound:") with (91 :: lit "sound:"). simpl.
  by destruct (N.eqb_spec c 91).
Qed.

Lemma img_re_head c r : c <> lt -> _IMG_TAG_RE (c :: r) = None.
Proof.
  intros Hc. unfold _IMG_TAG_RE, match_delimited.
  change (lit "<img") with (lt :: lit "img"). simpl.
  by destruct (N.eqb_spec c lt).
Qed.

Lemma tag_re_head c r : c <> lt -> _HTML_TAG_RE (c :: r) = None.
Proof. intros Hc. rewrite tag_re_cons. by destruct (N.eqb_spec c lt). Qed.

Lemma unescape_no_amp html5 t : amp ∉ t -> unescape html5 t = t.
Proof.
  intros H. unfold unescape.
  destruct (existsb (N.eqb amp) t) eqn:E; [|done].
  apply existsb_exists in E as (c & Hc & <-%N.eqb_eq).
  by apply list_elem_of_In in Hc.
Qed.

Lemma plain_app a b : plain (a ++ b) <-> plain a /\ plain b.
Proof. apply Forall_app. Qed.

Lemma plain_elem t c : plain t -> c ∈ t -> c <> lt /\ c <> amp /\ c <> 91.
Proof. unfold plain. rewrite Forall_forall. auto. Qed.

(** The steps behind the removal of the sound tokens leave a text without
    markup as it is. *)
Lemma markup_steps_plain_tail html5 t :
  plain t ->
  sub _HTML_TAG_RE [] (unescape html5 (sub _IMG_TAG_RE [] t)) = t.
Proof.
  intros H.
  rewrite (sub_skip_all _IMG_TAG_RE)
    by (intros c r Hc; apply img_re_head; by apply (plain_elem t)).
  rewrite unescape_no_amp
    by (intros Hc; by destruct (plain_elem t amp H Hc) as (_ & ? & _)).
  apply sub_skip_all. intros c r Hc. apply tag_re_head. by apply (plain_elem t).
Qed.

(** The first four steps leave a text without markup as it is. *)
Lemma markup_steps_plain html5 t :
  plain t ->
  sub _HTML_TAG_RE [] (unescape html5 (sub _IMG_TAG_RE [] (sub _SOUND_RE [] t))) = t.
Proof.
  intros H.
  rewrite (sub_skip_all _SOUND_RE)
    by (intros c r Hc; apply sound_re_head; by apply (plain_elem t)).
  by apply markup_steps_plain_tail.
Qed.

Lemma clean_field_value_steps html5 t :
  clean_field_value html5 t =
  join [space]
    (split_ws
       (sub _HTML_TAG_RE []
          (unescape html5 (sub _IMG_TAG_RE [] (sub _SOUND_RE [] t))))).
Proof.
  destruct t as [|c t]; [done|]. unfold clean_field_value.
  apply strip_sub_ws_join.
Qed.

Lemma clean_plain html5 t :
  plain t -> clean_field_value html5 t = join [space] (split_ws t).
Proof.
  intros H. by rewrite clean_field_value_steps, markup_steps_plain.
Qed.

(** ** Words *)

Lemma split_ws_word t : Forall word (split_ws t).
Proof.
  induction t as [|c t IH]; [constructor|]. rewrite split_ws_cons.
  destruct (isspace c) eqn:Ec; [done|].
  destruct (starts_ws t); [by repeat constructor|].
  destruct IH as [|p ps [Hp1 Hp2] Hps]; [by repeat constructor|].
  constructor; [|done]. split; [done|]. by constructor.
Qed.

Lemma split_ws_one w : word w -> split_ws w = [w].
Proof.
  intros [Hne Hw]. induction Hw as [|c w Hc Hw IH]; [done|].
  rewrite split_ws_cons, Hc. destruct w as [|d w]; [done|].
  inversion Hw as [|? ? Hd _]; subst.
  change (starts_ws (d :: w)) with (isspace d). rewrite Hd.
  by rewrite IH.
Qed.

Lemma split_ws_word_space w t :
  word w -> split_ws (w ++ space :: t) = w :: split_ws t.
Proof.
  intros [Hne Hw]. induction Hw as [|c w Hc Hw IH]; [done|].
  change ((c :: w) ++ space :: t) with (c :: (w ++ space :: t)).
  rewrite split_ws_cons, Hc. destruct w as [|d w].
  - change ([] ++ space :: t) with (space :: t).
    change (starts_ws (space :: t)) with true. cbv iota.
    by rewrite (split_ws_cons space t).
  - inversion Hw as [|? ? Hd _]; subst.
    change (starts_ws ((d :: w) ++ space :: t)) with (isspace d). rewrite Hd.
    by rewrite IH.
Qed.

Lemma split_ws_join ws : Forall word ws -> split_ws (join [space] ws) = ws.
Proof.
  induction 1 as [|w ws Hw Hws IH]; [done|]. destruct ws as [|w' ws].
  - simpl. by apply split_ws_one.
  - change (join [space] (w :: w' :: ws)) with (w ++ space :: join [space] (w' :: ws)).
    rewrite split_ws_word_space by done. by rewrite IH.
Qed.

Lemma elem_of_join (sep : str) (ws : list str) c :
  c ∈ join sep ws -> c ∈ sep \/ exists w, w ∈ ws /\ c ∈ w.
Proof.
  induction ws as [|w ws IH]; [by intros ?%elem_of_nil|].
  destruct ws as [|w' ws].
  - simpl. intros H. right. exists w. split; [apply elem_of_cons; auto | done].
  - change (join sep (w :: w' :: ws)) with (w ++ sep ++ join sep (w' :: ws)).
    rewrite !elem_of_app. intros [H|[H|H]].
    + right. exists w. split; [apply elem_of_cons; auto | done].
    + by left.
    + destruct (IH H) as [?|(x & Hx & Hc)]; [by left|].
      right. exists x. split; [apply elem_of_cons; auto | done].
Qed.

(** ** A tag or a sound token inside a text without markup *)

Lemma match_literal_app ic p u rest :
  Forall2 (fun a c => char_matches ic a c = true) p u ->
  match_literal ic p (u ++ rest) = Some rest.
Proof. induction 1 as [|a c p u Hac _ IH]; simpl; [done|]. by rewrite Hac. Qed.

Lemma match_literal_inv ic p t rest :
  match_literal ic p t = Some rest ->
  exists u, t = u ++ rest /\ Forall2 (fun a c => char_matches ic a c = true) p u.
Proof.
  revert t. induction p as [|a p IH]; intros t; simpl.
  - intros [= <-]. exists []. by split; [|constructor].
  - destruct t as [|c t]; [done|].
    destruct (char_matches ic a c) eqn:E; [|done].
    intros (u & -> & Hu)%IH. exists (c :: u). by split; [|constructor].
Qed.

Lemma drop_through {A} (a : list A) (x : A) (t : list A) :
  drop (S (length a)) (a ++ x :: t) = t.
Proof. induction a as [|c a IH]; simpl; auto. Qed.

Lemma run_until_app stop a t :
  stop ∉ a -> run_until stop (a ++ stop :: t) = Some (length a).
Proof.
  induction a as [|c a IH]; simpl.
  - by rewrite N.eqb_refl.
  - rewrite not_elem_of_cons. intros [Hc Ha].
    destruct (N.eqb_spec c stop); [done|]. by rewrite IH.
Qed.

Lemma run_until_prefix stop u rest k :
  stop ∉ u -> run_until stop rest = Some k ->
  run_until stop (u ++ rest) = Some (length u + k)%nat.
Proof.
  induction u as [|c u IH]; simpl; [done|].
  rewrite not_elem_of_cons. intros [Hc Hu] Hk.
  destruct (N.eqb_spec c stop); [done|]. by rewrite IH.
Qed.

(** A match of a delimited pattern ends at the first [stop] of the text,
    when no character that its prefix matches is a [stop]. *)
Lemma match_delimited_extent ic prefix least stop t n :
  (forall a, a ∈ prefix -> char_matches ic a stop = false) ->
  match_delimited ic prefix least stop t = Some n ->
  exists k, n = S k /\ run_until stop t = Some k.
Proof.
  intros Hp. unfold match_delimited.
  destruct (match_literal ic prefix t) as [rest|] eqn:E; [|done].
  destruct (run_until stop rest) as [k|] eqn:Ek; [|done].
  destruct (least <=? k)%nat; [|done]. intros [= <-].
  apply match_literal_inv in E as (u & -> & Hu).
  exists (length prefix + k)%nat. split; [lia|].
  rewrite (Forall2_length _ _ _ Hu). apply run_until_prefix; [|done].
  intros Hin. apply list_elem_of_lookup in Hin as [i Hi].
  destruct (Forall2_lookup_r _ _ _ _ _ Hu Hi) as (a & Ha & Hm).
  rewrite Hp in Hm; [done|]. by eapply list_elem_of_lookup_2.
Qed.

Lemma img_re_extent t n :
  _IMG_TAG_RE t = Some n -> exists k, n = S k /\ run_until gt t = Some k.
Proof.
  apply match_delimited_extent. intros a Ha.
  apply list_elem_of_In in Ha. vm_compute in Ha.
  destruct Ha as [<-|[<-|[<-|[<-|[]]]]]; reflexivity.
Qed.

Lemma tag_body_no_lt body c : tag_body body -> c ∈ body -> c <> lt.
Proof. intros (_ & _ & H) Hc. by apply (plain_elem body). Qed.

Lemma tag_body_no_gt body : tag_body body -> gt ∉ body.
Proof.
  intros (_ & H & _) Hin. rewrite Forall_forall in H.
  by destruct (H _ Hin).
Qed.

(** The removal of the image tags takes a tag as a whole or leaves it. *)
Lemma sub_img_tag body post :
  tag_body body -> plain post ->
  sub _IMG_TAG_RE [] (lt :: body ++ gt :: post) = post
  \/ sub _IMG_TAG_RE [] (lt :: body ++ gt :: post) = lt :: body ++ gt :: post.
Proof.
  intros Hb Hpost.
  assert (sub _IMG_TAG_RE [] post = post) as Ep.
  { apply sub_skip_all. intros c r Hc. apply img_re_head.
    by apply (plain_elem post). }
  rewrite sub_cons.
  destruct (_IMG_TAG_RE (lt :: body ++ gt :: post)) as [n|] eqn:E.
  - left. apply img_re_extent in E as (k & -> & Hk).
    change (lt :: body ++ gt :: post) with ((lt :: body) ++ gt :: post) in Hk.
    rewrite run_until_app in Hk.
    + injection Hk as <-. simpl. by rewrite drop_through.
    + rewrite not_elem_of_cons. split; [done | by apply tag_body_no_gt].
  - right. f_equal. rewrite sub_skip.
    + f_equal. rewrite sub_cons, img_re_head by done. by rewrite Ep.
    + intros c r Hc. apply img_re_head. by eapply tag_body_no_lt.
Qed.

Lemma sub_html_tag body post :
  tag_body body -> plain post ->
  sub _HTML_TAG_RE [] (lt :: body ++ gt :: post) = post.
Proof.
  intros Hb Hpost. rewrite sub_cons, tag_re_cons. simpl.
  rewrite run_until_app by (by apply tag_body_no_gt).
  destruct body as [|c body]; [by destruct Hb|]. simpl.
  rewrite drop_through. apply sub_skip_all.
  intros d r Hd. apply tag_re_head. by apply (plain_elem post).
Qed.

Lemma tag_body_elem body c :
  tag_body body -> c ∈ body -> c <> lt /\ c <> amp /\ c <> 91.
Proof. intros (_ & _ & H). by apply plain_elem. Qed.

(** The first four steps on a tag inside a text without markup. *)
Lemma markup_steps_tag html5 pre body post :
  plain pre -> tag_body body -> plain post ->
  sub _HTML_TAG_RE []
    (unescape html5
       (sub _IMG_TAG_RE [] (sub _SOUND_RE [] (pre ++ lt :: body ++ gt :: post))))
  = pre ++ post.
Proof.
  intros Hpre Hb Hpost.
  assert (forall c, c ∈ pre ++ lt :: body ++ gt :: post -> c <> amp /\ c <> 91) as Hall.
  { intros c. rewrite elem_of_app, elem_of_cons, elem_of_app, elem_of_cons.
    intros [H|[->|[H|[->|H]]]]; try done.
    - by destruct (plain_elem _ _ Hpre H) as (_ & ? & ?).
    - by destruct (tag_body_elem _ _ Hb H) as (_ & ? & ?).
    - by destruct (plain_elem _ _ Hpost H) as (_ & ? & ?). }
  rewrite (sub_skip_all _SOUND_RE)
    by (intros c r Hc; apply sound_re_head; by apply Hall).
  rewrite (sub_skip _IMG_TAG_RE)
    by (intros c r Hc; apply img_re_head; by apply (plain_elem pre)).
  destruct (sub_img_tag body post Hb Hpost) as [-> | ->].
  - rewrite unescape_no_amp.
    + apply sub_skip_all. intros c r [H|H]%elem_of_app; apply tag_re_head.
      * by apply (plain_elem pre).
      * by apply (plain_elem post).
    + intros [H|H]%elem_of_app.
      * by destruct (plain_elem _ _ Hpre H) as (_ & ? & _).
      * by destruct (plain_elem _ _ Hpost H) as (_ & ? & _).
  - rewrite unescape_no_amp by (intros H; by destruct (Hall _ H)).
    rewrite (sub_skip _HTML_TAG_RE)
      by (intros c r Hc; apply tag_re_head; by apply (plain_elem pre)).
    by rewrite sub_html_tag.
Qed.

(** A token of a delimited pattern is replaced as a whole. *)
Lemma sub_delimited_token ic prefix least stop repl u body post :
  prefix <> [] ->
  Forall2 (fun a c => char_matches ic a c = true) prefix u ->
  stop ∉ body -> (least <= length body)%nat ->
  sub (match_delimited ic prefix least stop) repl (u ++ body ++ stop :: post)
  = repl ++ sub (match_delimited ic prefix least stop) repl post.
Proof.
  intros Hne Hu Hstop Hleast.
  assert (match_delimited ic prefix least stop (u ++ body ++ stop :: post)
          = Some (length u + length body + 1)%nat) as E.
  { unfold match_delimited. rewrite (match_literal_app _ _ _ _ Hu).
    rewrite run_until_app by done.
    destruct (Nat.leb_spec least (length body)); [|lia].
    by rewrite (Forall2_length _ _ _ Hu). }
  destruct u as [|c u]; [by inversion Hu; subst|].
  change ((c :: u) ++ body ++ stop :: post) with (c :: (u ++ body ++ stop :: post)) in *.
  rewrite sub_cons, E. simpl. f_equal.
  rewrite Nat.add_1_r. simpl.
  replace (u ++ body ++ stop :: post) with ((u ++ body ++ [stop]) ++ post)
    by (by rewrite <- !app_assoc).
  replace (S (length u + length body)) with (length (u ++ body ++ [stop]))
    by (rewrite !length_app; simpl; lia).
  by rewrite drop_app_length.
Qed.

(** The first four steps on a sound token inside a text without markup. *)
Lemma markup_steps_sound html5 pre p name post :
  plain pre -> ignorecase_eq (lit "[sound:") p -> tag_body name -> plain post ->
  sub _HTML_TAG_RE []
    (unescape html5
       (sub _IMG_TAG_RE [] (sub _SOUND_RE [] (pre ++ p ++ name ++ 93 :: post))))
  = pre ++ post.
Proof.
  intros Hpre Hp Hn Hpost.
  rewrite (sub_skip _SOUND_RE)
    by (intros c r Hc; apply sound_re_head; by apply (plain_elem pre)).
  assert (sub _SOUND_RE [] (p ++ name ++ 93 :: post) = post) as ->.
  { unfold _SOUND_RE.
    etrans; [apply (sub_delimited_token true (lit "[sound:") 1 93 [] p name post)|].
    - done.
    - done.
    - destruct Hn as (_ & H & _). rewrite Forall_forall in H.
      intros Hin. by destruct (H _ Hin).
    - destruct Hn as (H & _). destruct name; [done | simpl; lia].
    - simpl. apply (sub_skip_all _SOUND_RE [] post).
      intros c r Hc. apply sound_re_head. by apply (plain_elem post). }
  apply markup_steps_plain_tail. by apply plain_app.
Qed.

(** A text without markup comes out with its whitespace normalised and
    nothing else changed: it is its words joined by single spaces. *)
Theorem clean_field_value_plain_text (html5 : gmap str str) (text : str) :
  plain text ->
  clean_field_value html5 text = join [space] (split_ws text).
Proof. apply clean_plain. Qed.

Lemma clean_field_value_plain_text_witness :
  plain (lit "  two   words ")
  /\ clean_field_value html5_excerpt (lit "  two   words ") = lit "two words"
  /\ clean_field_value html5_excerpt (lit "  two   words ")
     = join [space] (split_ws (lit "  two   words ")).
Proof.
  assert (plain (lit "  two   words ")) as H.
  { apply Forall_forall. intros c Hc%list_elem_of_In. vm_compute in Hc.
    repeat (destruct Hc as [<-|Hc]; [repeat split; discriminate|]). done. }
  split; [exact H|]. split; [vm_compute; reflexivity|].
  exact (clean_field_value_plain_text html5_excerpt (lit "  two   words ") H).
Defined.

(** Cleaning a second time changes nothing, when the cleaned text has no
    [<], no [&] and no opening square bracket. *)
Theorem clean_field_value_twice (html5 : gmap str str) (text : str) :
  plain (clean_field_value html5 text) ->
  clean_field_value html5 (clean_field_value html5 text)
  = clean_field_value html5 text.
Proof.
  intros H. rewrite (clean_plain _ _ H).
  rewrite (clean_field_value_steps html5 text).
  by rewrite split_ws_join by apply split_ws_word.
Qed.

Lemma clean_field_value_twice_witness :
  plain (clean_field_value html5_excerpt (lit "<b>Hi</b>  there"))
  /\ clean_field_value html5_excerpt (lit "<b>Hi</b>  there") = lit "Hi there"
  /\ clean_field_value html5_excerpt
       (clean_field_value html5_excerpt (lit "<b>Hi</b>  there"))
     = clean_field_value html5_excerpt (lit "<b>Hi</b>  there").
Proof.
  assert (plain (clean_field_value html5_excerpt (lit "<b>Hi</b>  there"))) as H.
  { apply Forall_forall. intros c Hc%list_elem_of_In. vm_compute in Hc.
    repeat (destruct Hc as [<-|Hc]; [repeat split; discriminate|]). done. }
  split; [exact H|]. split; [vm_compute; reflexivity|].
  exact (clean_field_value_twice html5_excerpt (lit "<b>Hi</b>  there") H).
Defined.

(** A tag inside a text without markup goes without a trace: the cleaned
    text is that of the text before and the text behind it put together,
    with no space in the place of the tag. *)
Theorem clean_field_value_removes_tag (html5 : gmap str str)
    (pre body post : str) :
  plain pre -> tag_body body -> plain post ->
  clean_field_value html5 (pre ++ lt :: body ++ gt :: post)
  = join [space] (split_ws (pre ++ post)).
Proof.
  intros Hpre Hb Hpost.
  by rewrite clean_field_value_steps, markup_steps_tag.
Qed.

(** A sound token, in any case of its letters, inside a text without markup
    goes in the same way. *)
Theorem clean_field_value_removes_sound (html5 : gmap str str)
    (pre p name post : str) :
  plain pre -> ignorecase_eq (lit "[sound:") p -> tag_body name -> plain post ->
  clean_field_value html5 (pre ++ p ++ name ++ 93 :: post)
  = join [space] (split_ws (pre ++ post)).
Proof.
  intros Hpre Hp Hn Hpost.
  by rewrite clean_field_value_steps, markup_steps_sound.
Qed.

Lemma clean_field_value_removes_tag_witness :
  plain (lit "a") /\ tag_body (lit "br /") /\ plain (lit "b c")
  /\ clean_field_value html5_excerpt (lit "a<br />b c") = lit "ab c"
  /\ clean_field_value html5_excerpt (lit "a" ++ lt :: lit "br /" ++ gt :: lit "b c")
     = join [space] (split_ws (lit "a" ++ lit "b c")).
Proof.
  assert (plain (lit "a")) as H1 by (repeat constructor; discriminate).
  assert (tag_body (lit "br /")) as H2.
  { split; [discriminate|]. split; repeat constructor; discriminate. }
  assert (plain (lit "b c")) as H3 by (repeat constructor; discriminate).
  split; [exact H1|]. split; [exact H2|]. split; [exact H3|].
  split; [vm_compute; reflexivity|].
  exact (clean_field_value_removes_tag html5_excerpt (lit "a") (lit "br /")
           (lit "b c") H1 H2 H3).
Defined.

Lemma clean_field_value_removes_sound_witness :
  plain (lit "la ") /\ ignorecase_eq (lit "[sound:") (lit "[Sound:")
  /\ tag_body (lit "la.mp3") /\ plain (lit " (f)")
  /\ clean_field_value html5_excerpt (lit "la [Sound:la.mp3] (f)") = lit "la (f)"
  /\ clean_field_value html5_excerpt
       (lit "la " ++ lit "[Sound:" ++ lit "la.mp3" ++ 93 :: lit " (f)")
     = join [space] (split_ws (lit "la " ++ lit " (f)")).
Proof.
  assert (plain (lit "la ")) as H1 by (repeat constructor; discriminate).
  assert (ignorecase_eq (lit "[sound:") (lit "[Sound:")) as H2
    by (repeat constructor).
  assert (tag_body (lit "la.mp3")) as H3.
  { split; [discriminate|]. split; repeat constructor; discriminate. }
  assert (plain (lit " (f)")) as H4 by (repeat constructor; discriminate).
  split; [exact H1|]. split; [exact H2|]. split; [exact H3|]. split; [exact H4|].
  split; [vm_compute; reflexivity|].
  exact (clean_field_value_removes_sound html5_excerpt (lit "la ") (lit "[Sound:")
           (lit "la.mp3") (lit " (f)") H1 H2 H3 H4).
Defined.

Local Open Scope Z_scope.

(** ** Placeholders and parameters *)

Lemma tag_placeholders (tags : list str) :
  concat (map atom_placeholders (map (fun _ : str => TagsLike) tags))
  = map type_of_param (map (fun tag => PText (tag_pattern tag)) tags).
Proof. induction tags as [|t tags IH]; simpl; [done|]. by rewrite IH. Qed.

(** The statement has as many placeholders as the run binds parameters,
    each parameter of the type of its placeholder; its first condition is
    the one on the decks. *)
Theorem build_where_binds (dids : list Z) (cutoff : option Z)
    (opts : ExportOptions) :
  concat (map clause_placeholders (build_where dids cutoff opts).1)
  = map type_of_param (build_where dids cutoff opts).2
  /\ head (build_where dids cutoff opts).1 = Some (Atom (DidIn dids)).
Proof.
  unfold build_where.
  destruct (tags_filter opts) as [[|t tags]|].
  1,3: by destruct cutoff, (min_interval opts).
  set (ts := t :: tags).
  change (map (fun _ : str => TagsLike) ts)
    with (TagsLike :: map (fun _ : str => TagsLike) tags) at 1 3.
  cbv iota. pose proof (tag_placeholders ts) as E.
  destruct cutoff, (min_interval opts); cbn [fst snd app head]; (split; [|done]);
    cbn [map concat clause_placeholders atom_placeholders app];
    rewrite ?map_app, ?app_nil_r, E; done.
Qed.

(** ** An empty list of tags *)

Lemma lines_written_ext html5 o1 o2 names rows :
  (forall row, row_object html5 o1 names row = row_object html5 o2 names row) ->
  lines_written html5 o1 names rows = lines_written html5 o2 names rows.
Proof.
  intros H. induction rows as [|row rows IH]; simpl; [done|].
  by rewrite H, IH.
Qed.

(** Two runs that build the same statement and project the rows alike come
    to the same end. *)
Lemma export_llm_stats_ext html5 limit now_sec fs col o1 o2 :
  deck_id o1 = deck_id o2 -> days o1 = days o2 -> out_path o1 = out_path o2 ->
  (forall dids cutoff, build_where dids cutoff o1 = build_where dids cutoff o2) ->
  (forall names row, row_object html5 o1 names row = row_object html5 o2 names row) ->
  export_llm_stats html5 limit now_sec fs col o1
  = export_llm_stats html5 limit now_sec fs col o2.
Proof.
  intros Hd Hy Hp Hw Hr. rewrite !export_llm_stats_unfold.
  unfold exported_rows. rewrite Hd, Hy, Hp.
  destruct (_deck_and_child_ids limit col (deck_id o2)) as [dids|e]; [|done].
  destruct (cutoff_ms now_sec (days o2)) as [cutoff|e]; [|done].
  rewrite Hw. by rewrite (lines_written_ext html5 o1 o2) by apply Hr.
Qed.

(** A run with the empty list of tags is the run without a tag filter: it
    exports the reviews whatever their tags. *)
Theorem empty_tags_no_filter (html5 : gmap str str) (limit : nat)
    (now_sec : spec_float) (fs : gmap str str) (col : Collection)
    (opts : ExportOptions) :
  tags_filter opts = Some [] ->
  export_llm_stats html5 limit now_sec fs col opts
  = export_llm_stats html5 limit now_sec fs col (with_tags None opts).
Proof.
  intros H. apply export_llm_stats_ext; try done.
  intros dids cutoff. unfold build_where. simpl. by rewrite H.
Qed.

Lemma empty_tags_no_filter_witness :
  tags_filter (with_tags (Some []) sample_opts) = Some []
  /\ (export_llm_stats html5_excerpt 5 (float_of_Z 86401) ∅ sample_col
        (with_tags (Some []) sample_opts)).2 = Ok sample_result
  /\ export_llm_stats html5_excerpt 5 (float_of_Z 86401) ∅ sample_col
       (with_tags (Some []) sample_opts)
     = export_llm_stats html5_excerpt 5 (float_of_Z 86401) ∅ sample_col
         (with_tags None (with_tags (Some []) sample_opts)).
Proof.
  split; [reflexivity|]. split; [vm_compute; reflexivity|].
  exact (empty_tags_no_filter html5_excerpt 5 (float_of_Z 86401) ∅ sample_col
           (with_tags (Some []) sample_opts) eq_refl).
Defined.

(** ** Filters and the order of the rows *)

Lemma insert_by_id_least r l :
  Forall (fun x => r_id r <= r_id x) l -> insert_by_id r l = r :: l.
Proof.
  destruct 1 as [|x l Hx _]; [done|]. simpl.
  by destruct (Z.leb_spec (r_id r) (r_id x)); [|lia].
Qed.

Lemma insert_by_id_filter (P : Row -> Prop) `{!forall x, Decision (P x)} r l :
  StronglySorted id_le l ->
  filter P (insert_by_id r l)
  = if decide (P r) then insert_by_id r (filter P l) else filter P l.
Proof.
  induction 1 as [|x l Hs IH Hx]; simpl.
  - rewrite filter_cons, filter_nil. by destruct (decide (P r)).
  - destruct (Z.leb_spec (r_id r) (r_id x)) as [Hle|Hlt].
    + rewrite (filter_cons _ r). destruct (decide (P r)); [|done].
      rewrite insert_by_id_least; [done|].
      apply Forall_forall. intros y Hy%list_elem_of_filter.
      destruct Hy as [_ Hy]. apply elem_of_cons in Hy as [->|Hy]; [done|].
      rewrite Forall_forall in Hx. specialize (Hx _ Hy). unfold id_le in Hx. lia.
    + rewrite !(filter_cons _ x), IH.
      destruct (decide (P x)), (decide (P r)); try done.
      simpl. by destruct (Z.leb_spec (r_id r) (r_id x)); [lia|].
Qed.

Lemma order_by_id_filter (P : Row -> Prop) `{!forall x, Decision (P x)} l :
  filter P (order_by_id l) = order_by_id (filter P l).
Proof.
  induction l as [|x l IH]; [done|].
  change (order_by_id (x :: l)) with (insert_by_id x (order_by_id l)).
  rewrite insert_by_id_filter by apply order_by_id_sorted.
  rewrite filter_cons, IH. by destruct (decide (P x)).
Qed.

Lemma deck_and_child_ids_without_filters limit col opts :
  _deck_and_child_ids limit col (deck_id (without_filters opts))
  = _deck_and_child_ids limit col (deck_id opts).
Proof. done. Qed.

(** The rows of a run are those of the run without filters on the reviews
    that pass the filters, in the same order. *)
Lemma exported_rows_filter limit now_sec col opts cutoff :
  cutoff_ms now_sec (days opts) = Ok cutoff ->
  exported_rows limit now_sec col opts
  = filter (fun row => review_filters cutoff opts row)
      (exported_rows limit now_sec col (without_filters opts)).
Proof.
  intros Hc. unfold exported_rows. rewrite Hc. simpl.
  destruct (_deck_and_child_ids limit col (deck_id opts)) as [dids|e]; [|done].
  unfold db_execute. rewrite order_by_id_filter. f_equal.
  rewrite list_filter_filter. apply list_filter_iff. intros row.
  rewrite !eval_build_where. unfold review_filters.
  change (eval_where [Atom (DidIn dids)] [] row) with (deck_filter dids row && true).
  destruct (deck_filter dids row), (time_filter cutoff row),
    (tag_filter (tags_filter opts) row), (interval_filter (min_interval opts) row);
    simpl; intuition.
Qed.

Lemma row_object_without_filters html5 opts names row :
  row_object html5 (without_filters opts) names row
  = row_object html5 opts names row.
Proof. done. Qed.

Lemma lines_written_objs html5 opts names rows objs :
  Forall2 (fun row obj => row_object html5 opts names row = Ok obj) rows objs ->
  lines_written html5 opts names rows = (concat (map line_of objs), None).
Proof.
  induction 1 as [|row obj rows objs H _ IH]; simpl; [done|].
  by rewrite H, IH.
Qed.

Lemma Forall2_sublist {A B} (R : A -> B -> Prop) l1 l2 k2 :
  sublist l1 l2 -> Forall2 R l2 k2 ->
  exists k1, Forall2 R l1 k1 /\ sublist k1 k2.
Proof.
  intros Hs. revert k2. induction Hs as [|x l1 l2 _ IH|x l1 l2 _ IH]; intros k2 H.
  - exists []. split; [constructor | apply sublist_nil_l].
  - inversion H as [|? y ? k2' Hxy H']; subst.
    destruct (IH _ H') as (k1 & H1 & Hk). exists (y :: k1).
    split; [by constructor | by apply sublist_skip].
  - inversion H as [|? y ? k2' Hxy H']; subst.
    destruct (IH _ H') as (k1 & H1 & Hk). exists k1.
    split; [done | by apply sublist_cons].
Qed.

(** A run that returns writes its file and counts as the anatomy of a run
    says. *)
Lemma export_llm_stats_objs html5 limit now_sec fs col opts dids cutoff objs :
  _deck_and_child_ids limit col (deck_id opts) = Ok dids ->
  cutoff_ms now_sec (days opts) = Ok cutoff ->
  Forall2 (fun row obj => row_object html5 opts (deck_names_of col) row = Ok obj)
    (exported_rows limit now_sec col opts) objs ->
  export_llm_stats html5 limit now_sec fs col opts
  = (<[out_path opts := concat (map line_of objs)]> fs,
     Ok {| count := length objs;
           first_ts_ms := head (map r_id (exported_rows limit now_sec col opts));
           last_ts_ms := last (map r_id (exported_rows limit now_sec col opts));
           deck_name := default unknown (deck_names_of col !! deck_id opts) |}).
Proof.
  intros Hd Hc Ho. rewrite export_llm_stats_unfold, Hd, Hc. simpl.
  rewrite (lines_written_objs _ _ _ _ _ Ho). simpl.
  by rewrite (Forall2_length _ _ _ Ho).
Qed.

(** Filters never add a record: when the run without the filters on the
    reviews returns, and the cutoff can be computed, the run with them
    returns too, and the records it writes are records of the other run, in
    the same order. *)
Theorem filters_only_narrow (html5 : gmap str str) (limit : nat)
    (now_sec : spec_float) (fs : gmap str str) (col : Collection)
    (opts : ExportOptions) (fs0 : gmap str str) (res0 : ExportResult) :
  export_llm_stats html5 limit now_sec fs col (without_filters opts)
  = (fs0, Ok res0) ->
  is_ok (cutoff_ms now_sec (days opts)) = true ->
  exists fs' res objs0 objs,
    export_llm_stats html5 limit now_sec fs col opts = (fs', Ok res)
    /\ fs0 !! out_path opts = Some (concat (map line_of objs0))
    /\ fs' !! out_path opts = Some (concat (map line_of objs))
    /\ sublist objs objs0
    /\ count res0 = length objs0 /\ count res = length objs
    /\ (count res <= count res0)%nat.
Proof.
  intros Hrun Hc.
  destruct (cutoff_ms now_sec (days opts)) as [cutoff|e] eqn:Ec; [clear Hc|done].
  apply export_llm_stats_ok in Hrun
    as (dids & c0 & objs0 & Hd & _ & Hobjs0 & -> & ->).
  simpl in Hd.
  pose proof (exported_rows_filter limit now_sec col opts cutoff Ec) as Er.
  assert (sublist (exported_rows limit now_sec col opts)
            (exported_rows limit now_sec col (without_filters opts))) as Hs.
  { rewrite Er. apply sublist_filter. }
  destruct (Forall2_sublist _ _ _ _ Hs Hobjs0) as (objs & Hobjs & Hso).
  exists (<[out_path opts := concat (map line_of objs)]> fs).
  eexists. exists objs0, objs.
  split; [by apply (export_llm_stats_objs _ _ _ _ _ _ dids cutoff)|].
  simpl. rewrite !lookup_insert_eq.
  pose proof (sublist_length _ _ Hso).
  pose proof (Forall2_length _ _ _ Hobjs0).
  repeat split; try done; lia.
Qed.

Lemma filters_only_narrow_witness :
  (export_llm_stats html5_excerpt 5 (float_of_Z 86402) ∅ sample_col
     (without_filters day_opts)).2 = Ok sample_result
  /\ is_ok (cutoff_ms (float_of_Z 86402) (days day_opts)) = true
  /\ exists fs' res objs0 objs,
       export_llm_stats html5_excerpt 5 (float_of_Z 86402) ∅ sample_col day_opts
       = (fs', Ok res)
       /\ (export_llm_stats html5_excerpt 5 (float_of_Z 86402) ∅ sample_col
             (without_filters day_opts)).1 !! out_path day_opts
          = Some (concat (map line_of objs0))
       /\ fs' !! out_path day_opts = Some (concat (map line_of objs))
       /\ sublist objs objs0
       /\ count sample_result = length objs0 /\ count res = length objs
       /\ (count res <= count sample_result)%nat.
Proof.
  split; [vm_compute; reflexivity|]. split; [vm_compute; reflexivity|].
  apply (filters_only_narrow html5_excerpt 5 (float_of_Z 86402) ∅ sample_col
           day_opts
           (export_llm_stats html5_excerpt 5 (float_of_Z 86402) ∅ sample_col
              (without_filters day_opts)).1
           sample_result).
  - vm_compute. reflexivity.
  - vm_compute. reflexivity.
Defined.

(** ** The files of a run *)

(** A run leaves every file but its destination as it was, however it
    ends. *)
Theorem export_writes_one_file (html5 : gmap str str) (limit : nat)
    (now_sec : spec_float) (fs : gmap str str) (col : Collection)
    (opts : ExportOptions) (path : str) :
  path <> out_path opts ->
  (export_llm_stats html5 limit now_sec fs col opts).1 !! path = fs !! path.
Proof.
  intros Hne. rewrite export_llm_stats_unfold.
  destruct (_deck_and_child_ids limit col (deck_id opts)); [|done].
  destruct (cutoff_ms now_sec (days opts)); [|done].
  simpl. by rewrite lookup_insert_ne.
Qed.

Lemma export_writes_one_file_witness :
  lit "notes.txt" <> out_path sample_opts
  /\ (export_llm_stats html5_excerpt 5 (float_of_Z 86401)
        {[ lit "notes.txt" := lit "keep" ]} sample_col sample_opts).1
       !! lit "notes.txt"
     = ({[ lit "notes.txt" := lit "keep" ]} : gmap str str) !! lit "notes.txt".
Proof.
  assert (lit "notes.txt" <> out_path sample_opts) as H by discriminate.
  split; [exact H|].
  exact (export_writes_one_file html5_excerpt 5 (float_of_Z 86401)
           {[ lit "notes.txt" := lit "keep" ]} sample_col sample_opts
           (lit "notes.txt") H).
Defined.

Lemma lines_written_raise html5 opts names rows text e :
  lines_written html5 opts names rows = (text, Some e) ->
  exists before row after objs,
    rows = before ++ row :: after
    /\ Forall2 (fun row obj => row_object html5 opts names row = Ok obj) before objs
    /\ row_object html5 opts names row = Raise e
    /\ text = concat (map line_of objs).
Proof.
  revert text. induction rows as [|row rows IH]; simpl; intros text; [done|].
  destruct (row_object html5 opts names row) as [obj|e'] eqn:E.
  - destruct (lines_written html5 opts names rows) as [text' e''].
    intros [= <- ->].
    destruct (IH _ eq_refl) as (before & r & after & objs & -> & H1 & H2 & ->).
    exists (row :: before), r, after, (obj :: objs).
    by repeat split; [constructor|..].
  - intros [= <- <-]. exists [], row, rows, []. by repeat split; [constructor|..].
Qed.

(** A run that raises does so before the destination is opened, when the
    decks cannot be resolved or the cutoff cannot be computed, and then
    leaves the files as they were; or at a row that cannot be projected, and
    then leaves in the destination the lines of the rows before that row. *)
Theorem export_failure (html5 : gmap str str) (limit : nat)
    (now_sec : spec_float) (fs : gmap str str) (col : Collection)
    (opts : ExportOptions) (fs' : gmap str str) (e : exn) :
  export_llm_stats html5 limit now_sec fs col opts = (fs', Raise e) ->
  (fs' = fs
   /\ (_deck_and_child_ids limit col (deck_id opts) = Raise e
       \/ cutoff_ms now_sec (days opts) = Raise e))
  \/ (exists before row after objs,
        exported_rows limit now_sec col opts = before ++ row :: after
        /\ Forall2
             (fun row obj =>
                row_object html5 opts (deck_names_of col) row = Ok obj)
             before objs
        /\ row_object html5 opts (deck_names_of col) row = Raise e
        /\ fs' = <[out_path opts := concat (map line_of objs)]> fs).
Proof.
  rewrite export_llm_stats_unfold.
  destruct (_deck_and_child_ids limit col (deck_id opts)) as [dids|e1];
    [|intros [= <- <-]; left; auto].
  destruct (cutoff_ms now_sec (days opts)) as [cutoff|e1];
    [|intros [= <- <-]; left; auto].
  simpl.
  destruct (lines_written html5 opts (deck_names_of col)
              (exported_rows limit now_sec col opts)) as [text [e1|]] eqn:E;
    simpl; [|done].
  intros [= <- <-]. right.
  apply lines_written_raise in E as (before & row & after & objs & ? & ? & ? & ->).
  by exists before, row, after, objs.
Qed.

Lemma export_failure_witness :
  exported_rows 5 (float_of_Z 86401) col_beyond_floats sample_opts
  = [row_1000; row_beyond_floats]
  /\ (export_llm_stats html5_excerpt 5 (float_of_Z 86401) ∅ col_beyond_floats
        sample_opts).2 = Raise OverflowError
  /\ newlines
       (default []
          ((export_llm_stats html5_excerpt 5 (float_of_Z 86401) ∅
              col_beyond_floats sample_opts).1 !! out_path sample_opts))
     = 1%nat
  /\ (((export_llm_stats html5_excerpt 5 (float_of_Z 86401) ∅ col_beyond_floats
          sample_opts).1 = ∅
       /\ (_deck_and_child_ids 5 col_beyond_floats (deck_id sample_opts)
           = Raise OverflowError
           \/ cutoff_ms (float_of_Z 86401) (days sample_opts)
              = Raise OverflowError))
      \/ (exists before row after objs,
            exported_rows 5 (float_of_Z 86401) col_beyond_floats sample_opts
            = before ++ row :: after
            /\ Forall2
                 (fun row obj =>
                    row_object html5_excerpt sample_opts
                      (deck_names_of col_beyond_floats) row = Ok obj)
                 before objs
            /\ row_object html5_excerpt sample_opts
                 (deck_names_of col_beyond_floats) row = Raise OverflowError
            /\ (export_llm_stats html5_excerpt 5 (float_of_Z 86401) ∅
                  col_beyond_floats sample_opts).1
               = <[out_path sample_opts := concat (map line_of objs)]> ∅)).
Proof.
  split; [vm_compute; reflexivity|]. split; [vm_compute; reflexivity|].
  split; [vm_compute; reflexivity|].
  apply (export_failure html5_excerpt 5 (float_of_Z 86401) ∅ col_beyond_floats
           sample_opts).
  vm_compute. reflexivity.
Defined.

(** ** The order of the records *)



(** ** The fields of a note *)

Lemma split_on_nonempty sep s : split_on sep s <> [].
Proof.
  destruct s as [|c s]; simpl; [done|].
  destruct (c =? sep)%N; [done|]. by destruct (split_on sep s).
Qed.

Lemma split_on_cons sep c s :
  split_on sep (c :: s) =
  if (c =? sep)%N then [] :: split_on sep s
  else match split_on sep s with
       | p :: ps => (c :: p) :: ps
       | [] => [[c]]
       end.
Proof. reflexivity. Qed.

Lemma join_cons (sep : str) x y l :
  join sep (x :: y :: l) = x ++ sep ++ join sep (y :: l).
Proof. reflexivity. Qed.

Lemma join_split_on sep s : join [sep] (split_on sep s) = s.
Proof.
  induction s as [|c s IH]; [done|]. rewrite split_on_cons.
  pose proof (split_on_nonempty sep s) as Hne.
  destruct (N.eqb_spec c sep) as [->|_].
  - destruct (split_on sep s) as [|p ps]; [done|].
    rewrite join_cons. simpl. f_equal. exact IH.
  - destruct (split_on sep s) as [|p ps]; [done|].
    rewrite join_cons_word. f_equal. exact IH.
Qed.

Lemma split_on_no_sep sep s : Forall (fun f => sep ∉ f) (split_on sep s).
Proof.
  induction s as [|c s IH]; [repeat constructor; apply not_elem_of_nil|].
  rewrite split_on_cons. destruct (N.eqb_spec c sep) as [->|Hne].
  - constructor; [apply not_elem_of_nil | done].
  - destruct IH as [|p ps Hp Hps];
      [repeat constructor; rewrite not_elem_of_cons; split;
         [done | apply not_elem_of_nil]|].
    constructor; [|done]. rewrite not_elem_of_cons. by split.
Qed.

Lemma split_on_length (sep : N) (s : list N) :
  length (split_on sep s) = S (length (filter (fun c : N => c = sep) s)).
Proof.
  induction s as [|c s IH]; [done|]. rewrite split_on_cons, filter_cons.
  pose proof (split_on_nonempty sep s) as Hne.
  destruct (N.eqb_spec c sep) as [->|Hc].
  - rewrite decide_True by done. simpl. by rewrite IH.
  - rewrite decide_False by done.
    destruct (split_on sep s) as [|p ps]; [done|]. by rewrite <- IH.
Qed.

(** Without a selection of fields, the object of a row holds one cleaned
    text for each field of the note, in their order. The fields are the
    pieces of [n.flds] between its separators [\x1f]: none of them holds a
    separator, put together with separators they give [n.flds] back, and
    there is one more of them than separators, but none for an empty
    [n.flds]. *)
Theorem all_fields_exported (html5 : gmap str str) (opts : ExportOptions)
    (names : gmap Z str) (row : Row) (obj : list (str * json)) :
  field_indexes opts = None ->
  row_object html5 opts names row = Ok obj ->
  let raw_fields := raw_fields_of (n_flds row) in
  (fields_key opts, JStrs (map (clean_field_value html5) raw_fields)) ∈ obj
  /\ join [31%N] raw_fields = n_flds row
  /\ Forall (fun f => 31%N ∉ f) raw_fields
  /\ length raw_fields
     = match n_flds row with
       | [] => 0%nat
       | _ => S (separators (n_flds row))
       end.
Proof.
  intros Hf Hobj raw_fields.
  destruct (row_object_fields _ _ _ _ _ Hobj) as (fields & Hs & Hin).
  rewrite Hf in Hs. simpl in Hs. injection Hs as <-.
  split; [done|]. subst raw_fields. unfold raw_fields_of.
  destruct (n_flds row) as [|c s] eqn:E; [by repeat split|].
  split; [apply join_split_on|]. split; [apply split_on_no_sep|].
  apply split_on_length.
Qed.

Lemma all_fields_exported_witness :
  field_indexes sample_opts = None
  /\ row_object html5_excerpt sample_opts ∅ row_three_fields
     = Ok object_three_fields
  /\ (let raw_fields := raw_fields_of (n_flds row_three_fields) in
      (fields_key sample_opts,
       JStrs (map (clean_field_value html5_excerpt) raw_fields))
        ∈ object_three_fields
      /\ join [31%N] raw_fields = n_flds row_three_fields
      /\ Forall (fun f => 31%N ∉ f) raw_fields
      /\ length raw_fields
         = match n_flds row_three_fields with
           | [] => 0%nat
           | _ => S (separators (n_flds row_three_fields))
           end).
Proof.
  split; [reflexivity|]. split; [vm_compute; reflexivity|].
  apply (all_fields_exported html5_excerpt sample_opts ∅ row_three_fields
           object_three_fields eq_refl).
  vm_compute. reflexivity.
Defined.

(** ** The verbose schema *)

(** The verbose object of a row has the eight keys of the schema in their
    order, and behind them the keys that the inclusion flags ask for:
    [ts_ms], then the three ids, then [deck_name]. No key comes twice, and
    the optional entries hold the timestamp, the ids and the name of the
    deck of the row. *)
Theorem verbose_object_keys (html5 : gmap str str) (opts : ExportOptions)
    (names : gmap Z str) (row : Row) (obj : list (str * json)) :
  compact_schema opts = false ->
  row_object html5 opts names row = Ok obj ->
  map fst obj = verbose_keys ++ optional_keys opts
  /\ NoDup (map fst obj)
  /\ (include_ts_ms opts = true -> (lit "ts_ms", JInt (r_id row)) ∈ obj)
  /\ (include_ids opts = true ->
      (lit "card_id", JInt (r_cid row)) ∈ obj
      /\ (lit "note_id", JInt (c_nid row)) ∈ obj
      /\ (lit "deck_id", JInt (c_did row)) ∈ obj)
  /\ (include_deck_name opts = true ->
      (lit "deck_name", JStr (default unknown (names !! c_did row))) ∈ obj).
Proof.
  intros Hc. unfold row_object, optional_keys. rewrite Hc.
  destruct (select_fields html5 (field_indexes opts) (raw_fields_of (n_flds row)))
    as [fields|e]; [|done]. simpl.
  destruct (ts_iso_of (r_id row)) as [ts|e]; [|done]. simpl.
  generalize (default unknown (names !! c_did row)). intros name.
  destruct (include_ts_ms opts), (include_ids opts), (include_deck_name opts);
    intros [= <-];
    (split; [vm_compute; reflexivity|]);
    (split; [apply (bool_decide_unpack _); vm_compute; reflexivity|]);
    repeat split; intros; try discriminate; find_entry.
Qed.

Lemma verbose_object_keys_witness :
  compact_schema (with_flags true true true sample_opts) = false
  /\ row_object html5_excerpt (with_flags true true true sample_opts)
       (deck_names_of sample_col) row_2000 = Ok object_all_flags
  /\ map fst object_all_flags
     = verbose_keys ++ optional_keys (with_flags true true true sample_opts)
  /\ NoDup (map fst object_all_flags)
  /\ (include_ts_ms (with_flags true true true sample_opts) = true ->
      (lit "ts_ms", JInt (r_id row_2000)) ∈ object_all_flags)
  /\ (include_ids (with_flags true true true sample_opts) = true ->
      (lit "card_id", JInt (r_cid row_2000)) ∈ object_all_flags
      /\ (lit "note_id", JInt (c_nid row_2000)) ∈ object_all_flags
      /\ (lit "deck_id", JInt (c_did row_2000)) ∈ object_all_flags)
  /\ (include_deck_name (with_flags true true true sample_opts) = true ->
      (lit "deck_name",
       JStr (default unknown (deck_names_of sample_col !! c_did row_2000)))
        ∈ object_all_flags).
Proof.
  split; [reflexivity|]. split; [vm_compute; reflexivity|].
  apply (verbose_object_keys html5_excerpt (with_flags true true true sample_opts)
           (deck_names_of sample_col) row_2000 object_all_flags eq_refl).
  vm_compute. reflexivity.
Defined.

(** ** The names of the decks *)

Lemma deck_names_fold_last (l : list (Z * str)) (m : gmap Z str) id name :
  NoDup (map fst l) -> (id, name) ∈ l ->
  fold_left (fun m d => <[d.1 := d.2]> m) l m !! id = Some name.
Proof.
  revert m. induction l as [|[k v] l IH]; intros m; simpl; [by intros _ ?%elem_of_nil|].
  rewrite NoDup_cons. intros [Hk Hl] [[= -> ->]|Hin]%elem_of_cons.
  - rewrite deck_names_fold by done. by rewrite lookup_insert_eq.
  - by apply IH.
Qed.

Lemma deck_names_of_listed col id name :
  NoDup (map fst (all_names_and_ids (decks col))) ->
  (id, name) ∈ all_names_and_ids (decks col) ->
  deck_names_of col !! id = Some name.
Proof. apply deck_names_fold_last. Qed.

(** When no deck id is listed twice, a run that returns gives the listed
    name of the root deck whenever the root deck is listed, and the verbose
    object of a row, with [deck_name] included, holds the listed name of the
    deck of the row whenever that deck is listed. *)
Theorem listed_deck_name (html5 : gmap str str) (limit : nat)
    (now_sec : spec_float) (fs : gmap str str) (col : Collection)
    (opts : ExportOptions) :
  NoDup (map fst (all_names_and_ids (decks col))) ->
  (forall name fs' res,
     (deck_id opts, name) ∈ all_names_and_ids (decks col) ->
     export_llm_stats html5 limit now_sec fs col opts = (fs', Ok res) ->
     deck_name res = name)
  /\ (forall row name obj,
        (c_did row, name) ∈ all_names_and_ids (decks col) ->
        compact_schema opts = false -> include_deck_name opts = true ->
        row_object html5 opts (deck_names_of col) row = Ok obj ->
        (lit "deck_name", JStr name) ∈ obj).
Proof.
  intros Hnd. split.
  - intros name fs' res Hin Hrun.
    apply export_llm_stats_ok in Hrun as (? & ? & ? & _ & _ & _ & _ & ->).
    simpl. by rewrite (deck_names_of_listed _ _ _ Hnd Hin).
  - intros row name obj Hin Hc Hn. unfold row_object.
    rewrite Hc, Hn, (deck_names_of_listed _ _ _ Hnd Hin).
    destruct (select_fields html5 (field_indexes opts) (raw_fields_of (n_flds row)))
      as [fields|e]; [|done]. simpl.
    destruct (ts_iso_of (r_id row)) as [ts|e]; [|done]. simpl.
    destruct (include_ts_ms opts), (include_ids opts); intros [= <-]; find_entry.
Qed.

Lemma listed_deck_name_witness :
  NoDup (map fst (all_names_and_ids (decks sample_col)))
  /\ (deck_id sample_opts, lit "A") ∈ all_names_and_ids (decks sample_col)
  /\ (export_llm_stats html5_excerpt 5 (float_of_Z 86401) ∅ sample_col
        sample_opts).2 = Ok sample_result
  /\ deck_name sample_result = lit "A".
Proof.
  assert (NoDup (map fst (all_names_and_ids (decks sample_col)))) as Hnd.
  { apply (bool_decide_unpack _). vm_compute. reflexivity. }
  assert ((deck_id sample_opts, lit "A") ∈ all_names_and_ids (decks sample_col))
    as Hin by (apply list_elem_of_In; vm_compute; tauto).
  split; [exact Hnd|]. split; [exact Hin|]. split; [vm_compute; reflexivity|].
  apply (proj1 (listed_deck_name html5_excerpt 5 (float_of_Z 86401) ∅ sample_col
                  sample_opts Hnd)
           (lit "A")
           (export_llm_stats html5_excerpt 5 (float_of_Z 86401) ∅ sample_col
              sample_opts).1
           sample_result Hin).
  vm_compute. reflexivity.
Defined.

(** ** The number of days *)

Lemma range_data_positive (index : Z) (n : Z) :
  mjoin (currentData {| items := range_items; currentIndex := index |}) = Some n ->
  1 <= n.
Proof.
  unfold currentData. simpl. destruct (index <? 0); [done|].
  destruct (Z.to_nat index) as [|[|[|[|[|[|k]]]]]]; simpl; intros [= <-]; lia.
Qed.

Lemma range_data_none (index : Z) :
  mjoin (currentData {| items := range_items; currentIndex := index |}) = None
  <-> index < 0 \/ 5 <= index.
Proof.
  unfold currentData. simpl. destruct (Z.ltb_spec index 0) as [Hneg|Hpos].
  - simpl. split; [auto | done].
  - destruct (Z.to_nat index) as [|[|[|[|[|[|k]]]]]] eqn:E; simpl.
    1-5: split; [done | intros [?|?]; exfalso; lia].
    all: split; [intros _; lia | done].
Qed.

Lemma selected_days_positive (custom_days index n : Z) :
  selected_days custom_days
    (mjoin (currentData {| items := range_items; currentIndex := index |}))
  = Some n ->
  1 <= n.
Proof.
  unfold selected_days.
  destruct (Z.eqb_spec custom_days 0) as [->|Hne]; simpl;
    [apply range_data_positive|].
  destruct (Z.ltb_spec 0 custom_days) as [Hpos|Hneg];
    [intros [= <-]; lia | apply range_data_positive].
Qed.

(** The number of days that the dialog gives is never zero or negative,
    whatever the spin box and the combo box hold: it is the custom number
    when that is positive, and else the number of the current range; and
    there is no time limit exactly when the custom number is not positive
    and the current range is the last one, or there is no current range. *)
Theorem selected_days_window (custom_days : Z) (index : Z) :
  let range_data :=
    mjoin (currentData {| items := range_items; currentIndex := index |}) in
  (forall n, selected_days custom_days range_data = Some n -> 1 <= n)
  /\ (0 < custom_days -> selected_days custom_days range_data = Some custom_days)
  /\ (selected_days custom_days range_data = None
      <-> custom_days <= 0 /\ (index < 0 \/ 5 <= index)).
Proof.
  intros range_data. split; [intros n; apply selected_days_positive|].
  unfold selected_days.
  destruct (Z.eqb_spec custom_days 0) as [->|Hne]; simpl.
  - split; [lia|]. subst range_data. rewrite range_data_none. intuition lia.
  - destruct (Z.ltb_spec 0 custom_days) as [Hpos|Hneg].
    + split; [done|]. split; [done | lia].
    + split; [lia|]. subst range_data. rewrite range_data_none. intuition lia.
Qed.

(** ** The getters of the texts *)

Section Getters.

Context (py_int : str -> option Z) (str_lower : str -> str).

Lemma selected_field_indexes_valid text idxs :
  selected_field_indexes py_int text = Some idxs ->
  idxs <> [] /\ Forall (fun i => 0 <= i) idxs.
Proof.
  unfold selected_field_indexes. destruct (strip text) as [|c t]; [done|].
  rewrite fold_field_index_step. simpl.
  destruct (omap _ _) as [|i l] eqn:E; [done|]. intros [= <-].
  split; [done|]. rewrite <- E. apply Forall_forall. intros j Hj.
  apply list_elem_of_omap in Hj as (part & _ & Hp).
  by eapply valid_index_nonneg.
Qed.

Lemma selected_tags_valid text tags :
  selected_tags str_lower text = Some tags ->
  tags <> [] /\ Forall (fun t => t <> []) tags.
Proof.
  unfold selected_tags. destruct (strip text) as [|c t]; [done|].
  rewrite fold_tag_step. simpl.
  destruct (filter _ _) as [|u l] eqn:E; [done|]. intros [= <-].
  split; [done|]. rewrite <- E. apply Forall_forall. intros v Hv.
  apply list_elem_of_filter in Hv as [Hv _]. by destruct v.
Qed.

End Getters.

(** ** The path *)

Lemma lstrip_nil_iff s : lstrip s = [] <-> Forall (fun c => isspace c = true) s.
Proof.
  induction s as [|c s IH]; simpl; [by split; [constructor|]|].
  destruct (isspace c) eqn:E.
  - rewrite IH. split; [by constructor | by inversion 1].
  - split; [done|]. inversion 1; congruence.
Qed.

Lemma rstrip_nil_iff s : rstrip s = [] <-> Forall (fun c => isspace c = true) s.
Proof.
  induction s as [|c s IH]; simpl; [by split; [constructor|]|].
  destruct (rstrip s) as [|d r] eqn:Er.
  - destruct (isspace c) eqn:E.
    + split; [intros _; constructor; [done | by apply IH] | done].
    + split; [done|]. inversion 1; congruence.
  - split; [done|]. inversion 1 as [|? ? _ Hs]; subst. by apply IH in Hs.
Qed.

Lemma lstrip_suffix s : exists pre, s = pre ++ lstrip s
  /\ Forall (fun c => isspace c = true) pre.
Proof.
  induction s as [|c s (pre & E & Hpre)]; simpl; [by exists []|].
  destruct (isspace c) eqn:Ec.
  - exists (c :: pre). split; [by rewrite E at 1 | by constructor].
  - by exists [].
Qed.

Lemma strip_nil_iff s : strip s = [] <-> Forall (fun c => isspace c = true) s.
Proof.
  unfold strip. rewrite rstrip_nil_iff.
  destruct (lstrip_suffix s) as (pre & E & Hpre). split.
  - intros H. rewrite E. by apply Forall_app.
  - intros H. rewrite E in H. by apply Forall_app in H as [_ H].
Qed.

Lemma strip_not_blank s : strip s <> [] <-> not_blank s.
Proof.
  rewrite strip_nil_iff. unfold not_blank. split.
  - intros H. apply not_Forall_Exists in H; [|intros c; apply _].
    apply Exists_exists in H as (c & Hc & Hs). exists c. split; [done|].
    by apply not_true_is_false.
  - intros (c & Hc & Hs) H. rewrite Forall_forall in H. specialize (H _ Hc).
    congruence.
Qed.

(** ** What the dialog starts *)

(** An export is started exactly when a collection is open, the dialog is
    accepted, the combo box of the decks has a current item, and the path
    has a character that is no whitespace. A path of whitespace only, or an
    empty one, gives the tooltip and no export. *)
Theorem on_export_llm_stats_starts (py_int : str -> option Z)
    (str_lower : str -> str) (col : option Collection) (accepted : bool)
    (dlg : LLMStatsDialog) :
  ((exists opts,
      on_export_llm_stats py_int str_lower col accepted dlg = RunInBackground opts)
   <-> is_Some col /\ accepted = true
       /\ is_Some (currentData (deck_combo dlg)) /\ not_blank (path_edit dlg))
  /\ (on_export_llm_stats py_int str_lower col accepted dlg
      = Tooltip (lit "Invalid file path.")
      <-> is_Some col /\ accepted = true
          /\ is_Some (currentData (deck_combo dlg))
          /\ Forall (fun c => isspace c = true) (path_edit dlg)).
Proof.
  unfold on_export_llm_stats, selected_deck_id, output_path.
  pose proof (strip_not_blank (path_edit dlg)) as Hnb.
  pose proof (strip_nil_iff (path_edit dlg)) as Hb.
  destruct col as [c|]; [|split; split;
    [by intros [? ?] | by intros ([? [=]] & _) | done | by intros ([? [=]] & _)]].
  destruct accepted; simpl; [|split; split;
    [by intros [? ?] | by intros (_ & [=] & _) | done | by intros (_ & [=] & _)]].
  destruct (currentData (deck_combo dlg)) as [id|]; [|split; split;
    [by intros [? ?] | by intros (_ & _ & [? [=]] & _) | done
    | by intros (_ & _ & [? [=]] & _)]].
  destruct (strip (path_edit dlg)) as [|ch p] eqn:E.
  - split; split.
    + by intros [? ?].
    + intros (_ & _ & _ & H). apply Hnb in H. done.
    + intros _. repeat split; eauto. by apply Hb.
    + done.
  - split; split.
    + intros _. repeat split; eauto. by apply Hnb.
    + intros _. eauto.
    + done.
    + intros (_ & _ & _ & H). apply Hb in H. done.
Qed.

(** The options of an export that the dialog starts are well formed: the
    deck is the current item of the combo box; the number of days, the
    minimum interval and the field indices are absent or positive,
    respectively not negative; the lists of indices and of tags are absent
    or not empty, and no tag is empty; and the path is the text of the
    dialog without the whitespace at its ends, and is not empty. *)
Theorem on_export_llm_stats_options (py_int : str -> option Z)
    (str_lower : str -> str) (col : option Collection) (accepted : bool)
    (dlg : LLMStatsDialog) (opts : ExportOptions) :
  items (range_combo dlg) = range_items ->
  on_export_llm_stats py_int str_lower col accepted dlg = RunInBackground opts ->
  currentData (deck_combo dlg) = Some (deck_id opts)
  /\ (forall n, days opts = Some n -> 1 <= n)
  /\ (forall idxs, field_indexes opts = Some idxs ->
        idxs <> [] /\ Forall (fun i => 0 <= i) idxs)
  /\ (forall tags, tags_filter opts = Some tags ->
        tags <> [] /\ Forall (fun t => t <> []) tags)
  /\ (forall m, min_interval opts = Some m -> 1 <= m)
  /\ out_path opts = strip (path_edit dlg) /\ out_path opts <> []
  /\ (forall c, head (out_path opts) = Some c -> isspace c = false)
  /\ (forall c, last (out_path opts) = Some c -> isspace c = false).
Proof.
  intros Hitems. unfold on_export_llm_stats, selected_deck_id, output_path.
  destruct col as [c|]; [|done]. destruct accepted; [|done]. simpl.
  destruct (currentData (deck_combo dlg)) as [id|]; [|done].
  assert (forall c, head (strip (path_edit dlg)) = Some c -> isspace c = false) as Hh.
  { intros ch H. apply rstrip_head in H. by apply lstrip_head in H. }
  pose proof (rstrip_last (lstrip (path_edit dlg))) as Hl.
  fold (strip (path_edit dlg)) in Hl.
  destruct (strip (path_edit dlg)) as [|ch p] eqn:E; [done|].
  intros [= <-]. cbn [deck_id days out_path field_indexes tags_filter min_interval].
  split; [done|]. split.
  { destruct (range_combo dlg) as [its idx]. simpl in Hitems. subst its.
    intros n. apply (selected_days_positive (custom_days_spin dlg) idx). }
  split; [apply selected_field_indexes_valid|].
  split; [apply selected_tags_valid|]. split.
  { intros m. unfold min_interval_of.
    destruct (Z.ltb_spec 0 (min_interval_spin dlg)); [|done]. intros [= <-]. lia. }
  split; [done|]. split; [done|]. by split.
Qed.

Lemma on_export_llm_stats_options_witness :
  items (range_combo sample_dialog) = range_items
  /\ on_export_llm_stats sample_int (fun s => s) (Some sample_col) true sample_dialog
     = RunInBackground sample_dialog_opts
  /\ currentData (deck_combo sample_dialog) = Some (deck_id sample_dialog_opts)
  /\ (forall n, days sample_dialog_opts = Some n -> 1 <= n)
  /\ (forall idxs, field_indexes sample_dialog_opts = Some idxs ->
        idxs <> [] /\ Forall (fun i => 0 <= i) idxs)
  /\ (forall tags, tags_filter sample_dialog_opts = Some tags ->
        tags <> [] /\ Forall (fun t => t <> []) tags)
  /\ (forall m, min_interval sample_dialog_opts = Some m -> 1 <= m)
  /\ out_path sample_dialog_opts = strip (path_edit sample_dialog)
  /\ out_path sample_dialog_opts <> []
  /\ (forall c, head (out_path sample_dialog_opts) = Some c -> isspace c = false)
  /\ (forall c, last (out_path sample_dialog_opts) = Some c -> isspace c = false).
Proof.
  split; [reflexivity|]. split; [vm_compute; reflexivity|].
  apply (on_export_llm_stats_options sample_int (fun s => s) (Some sample_col)
           true sample_dialog sample_dialog_opts eq_refl).
  vm_compute. reflexivity.
Defined.

(** ** The order of two texts *)

Lemma str_le_refl a : str_le a a = true.
Proof.
  induction a as [|c a IH]; simpl; [done|].
  by rewrite N.eqb_refl, IH, orb_true_r.
Qed.

Lemma str_le_total a b : str_le a b = false -> str_le b a = true.
Proof.
  revert b. induction a as [|c a IH]; intros [|d b]; simpl; try done.
  rewrite orb_false_iff, andb_false_iff. intros [Hlt H].
  apply N.ltb_ge in Hlt. rewrite orb_true_iff, andb_true_iff.
  destruct (N.eqb_spec c d) as [->|Hne].
  - right. rewrite N.eqb_refl. split; [done|]. apply IH. by destruct H.
  - left. apply N.ltb_lt. lia.
Qed.

Lemma str_le_trans a b c :
  str_le a b = true -> str_le b c = true -> str_le a c = true.
Proof.
  revert b c. induction a as [|x a IH]; intros [|y b] [|z c]; simpl; try done.
  rewrite !orb_true_iff, !andb_true_iff, !N.ltb_lt, !N.eqb_eq.
  intros [H1|[-> H1]] [H2|[-> H2]].
  - left. lia.
  - by left.
  - by left.
  - right. split; [done|]. by eapply IH.
Qed.

(** ** [list.sort] with a key *)

Section SortByKey.

Context {A : Type} (key : A -> str).

Lemma insert_by_key_perm x l : insert_by_key key x l ≡ₚ x :: l.
Proof.
  induction l as [|y l IH]; simpl; [done|].
  destruct (str_le (key x) (key y)); [done|]. rewrite IH. apply Permutation_swap.
Qed.

Lemma sort_by_key_perm l : sort_by_key key l ≡ₚ l.
Proof.
  induction l as [|x l IH]; simpl; [done|].
  by rewrite insert_by_key_perm, IH.
Qed.

Lemma insert_by_key_sorted x l :
  StronglySorted (key_le key) l -> StronglySorted (key_le key) (insert_by_key key x l).
Proof.
  induction 1 as [|y l Hs IH Hy]; simpl; [by repeat constructor|].
  destruct (str_le (key x) (key y)) eqn:E.
  - constructor; [by constructor|]. constructor; [done|].
    eapply Forall_impl; [done|]. intros z Hz. by eapply str_le_trans.
  - constructor; [done|]. rewrite insert_by_key_perm.
    constructor; [by apply str_le_total | done].
Qed.

Lemma sort_by_key_sorted l : StronglySorted (key_le key) (sort_by_key key l).
Proof.
  induction l as [|x l IH]; simpl; [constructor|].
  by apply insert_by_key_sorted.
Qed.

(** The sort is stable: the elements of one key keep their order. *)
Lemma insert_by_key_stable k x l :
  filter (fun a => key a = k) (insert_by_key key x l)
  = filter (fun a => key a = k) (x :: l).
Proof.
  induction l as [|y l IH]; simpl; [done|].
  destruct (str_le (key x) (key y)) eqn:E; [done|].
  rewrite (filter_cons _ y), IH, !filter_cons.
  destruct (decide (key y = k)) as [Hy|Hy], (decide (key x = k)) as [Hx|Hx];
    try done.
  rewrite Hx, <- Hy, str_le_refl in E. done.
Qed.

Lemma sort_by_key_stable k l :
  filter (fun a => key a = k) (sort_by_key key l) = filter (fun a => key a = k) l.
Proof.
  induction l as [|x l IH]; simpl; [done|].
  by rewrite insert_by_key_stable, !filter_cons, IH.
Qed.

End SortByKey.

(** ** The combo box of the decks *)

Lemma fold_addItem_items (l : list (Z * str)) (combo : QComboBox Z) :
  items (fold_left (fun combo d => addItem d.2 d.1 combo) l combo)
  = items combo ++ map (fun d => (d.2, d.1)) l.
Proof.
  revert combo. induction l as [|d l IH]; intros combo; simpl.
  - by rewrite app_nil_r.
  - rewrite IH. simpl. by rewrite <- app_assoc.
Qed.

Lemma fold_addItem_index (l : list (Z * str)) (combo : QComboBox Z) :
  currentIndex (fold_left (fun combo d => addItem d.2 d.1 combo) l combo)
  = match items combo, l with
    | [], _ :: _ => 0
    | _, _ => currentIndex combo
    end.
Proof.
  revert combo. induction l as [|d l IH]; intros combo; simpl.
  - by destruct (items combo).
  - rewrite IH. simpl. destruct (items combo); simpl; by destruct l.
Qed.

Lemma populate_decks_items str_lower col combo :
  items (_populate_decks str_lower col combo)
  = map (fun d => (d.2, d.1))
      (sort_by_key (lower_name str_lower) (all_names_and_ids (decks col))).
Proof. unfold _populate_decks. by rewrite fold_addItem_items. Qed.

Lemma map_swap_swap (l : list (Z * str)) :
  map (fun it : str * Z => (it.2, it.1)) (map (fun d : Z * str => (d.2, d.1)) l) = l.
Proof.
  induction l as [|[k v] l IH]; simpl; [done|]. by rewrite IH.
Qed.

(** The combo box of the decks holds every deck of the collection once, by
    the order of the lowered names; decks whose lowered names are the same
    keep the order in which the collection lists them; and the current item
    is the first one, when there is a deck. *)
Theorem populate_decks_sorted (str_lower : str -> str) (col : Collection)
    (combo : QComboBox Z) :
  let listed :=
    map (fun it : str * Z => (it.2, it.1))
      (items (_populate_decks str_lower col combo)) in
  listed ≡ₚ all_names_and_ids (decks col)
  /\ StronglySorted (name_le str_lower) listed
  /\ (forall k,
        filter (fun d => lower_name str_lower d = k) listed
        = filter (fun d => lower_name str_lower d = k)
            (all_names_and_ids (decks col)))
  /\ currentIndex (_populate_decks str_lower col combo)
     = match all_names_and_ids (decks col) with
       | [] => -1
       | _ => 0
       end.
Proof.
  intros listed. subst listed. rewrite populate_decks_items, map_swap_swap.
  split; [apply sort_by_key_perm|].
  split; [apply (sort_by_key_sorted (lower_name str_lower))|].
  split; [intros k; apply sort_by_key_stable|].
  unfold _populate_decks. rewrite fold_addItem_index. simpl.
  pose proof (sort_by_key_perm (lower_name str_lower)
                (all_names_and_ids (decks col))) as Hp.
  fold (lower_name str_lower).
  destruct (all_names_and_ids (decks col)) as [|d l].
  - by apply Permutation_nil_r in Hp as ->.
  - destruct (sort_by_key _ _); [by apply Permutation_nil_l in Hp|done].
Qed.

(** ** The deck of the dialog *)

Lemma deck_names_fold_some (l : list (Z * str)) (m : gmap Z str) id :
  id ∈ map fst l ->
  exists name,
    fold_left (fun m d => <[d.1 := d.2]> m) l m !! id = Some name
    /\ (id, name) ∈ l.
Proof.
  revert m. induction l as [|[k v] l IH]; intros m; simpl; [by intros ?%elem_of_nil|].
  intros Hin. destruct (decide (id ∈ map fst l)) as [Hl|Hl].
  - destruct (IH (<[k:=v]> m) Hl) as (name & H1 & H2).
    exists name. split; [done | by apply elem_of_cons; right].
  - apply elem_of_cons in Hin as [->|Hin]; [|done].
    exists v. rewrite deck_names_fold by done.
    split; [by rewrite lookup_insert_eq | by apply elem_of_cons; left].
Qed.

Lemma current_data_item {A} (combo : QComboBox A) (data : A) :
  currentData combo = Some data -> exists text, (text, data) ∈ items combo.
Proof.
  unfold currentData. destruct (currentIndex combo <? 0); [done|].
  destruct (items combo !! Z.to_nat (currentIndex combo)) as [[text d]|] eqn:E;
    [|done].
  intros [= <-]. exists text. by eapply list_elem_of_lookup_2.
Qed.

(** When the combo box of the decks holds what [_populate_decks] puts there
    for a collection, the deck of an export that the dialog starts is a
    deck that the collection lists, and a run on that collection that
    returns gives a name under which the deck is listed, not [<unknown>]. *)
Theorem dialog_deck_is_listed (py_int : str -> option Z)
    (str_lower : str -> str) (html5 : gmap str str) (limit : nat)
    (now_sec : spec_float) (fs : gmap str str) (col : Collection)
    (combo : QComboBox Z) (accepted : bool) (dlg : LLMStatsDialog)
    (opts : ExportOptions) :
  items (deck_combo dlg) = items (_populate_decks str_lower col combo) ->
  on_export_llm_stats py_int str_lower (Some col) accepted dlg
  = RunInBackground opts ->
  deck_id opts ∈ map fst (all_names_and_ids (decks col))
  /\ forall fs' res,
       export_llm_stats html5 limit now_sec fs col opts = (fs', Ok res) ->
       (deck_id opts, deck_name res) ∈ all_names_and_ids (decks col).
Proof.
  intros Hitems Hrun.
  assert (currentData (deck_combo dlg) = Some (deck_id opts)) as Hd.
  { revert Hrun. unfold on_export_llm_stats, selected_deck_id.
    destruct accepted; [|done]. simpl.
    destruct (currentData (deck_combo dlg)) as [id|]; [|done].
    destruct (output_path (path_edit dlg)); [done|]. by intros [= <-]. }
  apply current_data_item in Hd as (text & Hin).
  rewrite Hitems, populate_decks_items in Hin.
  assert (deck_id opts ∈ map fst (all_names_and_ids (decks col))) as Hl.
  { apply list_elem_of_In, in_map_iff in Hin as ([k v] & [= <- <-] & Hin).
    apply list_elem_of_In in Hin. rewrite sort_by_key_perm in Hin.
    apply list_elem_of_In, in_map_iff. exists (k, v).
    split; [done | by apply list_elem_of_In]. }
  split; [done|]. intros fs' res Hres.
  apply export_llm_stats_ok in Hres as (? & ? & ? & _ & _ & _ & _ & ->).
  simpl. destruct (deck_names_fold_some _ ∅ _ Hl) as (name & H1 & H2).
  unfold deck_names_of. by rewrite H1.
Qed.

Lemma dialog_deck_is_listed_witness :
  items (deck_combo sample_dialog)
  = items (_populate_decks (fun s => s) sample_col {| items := []; currentIndex := -1 |})
  /\ on_export_llm_stats sample_int (fun s => s) (Some sample_col) true sample_dialog
     = RunInBackground sample_dialog_opts
  /\ deck_id sample_dialog_opts ∈ map fst (all_names_and_ids (decks sample_col))
  /\ forall fs' res,
       export_llm_stats html5_excerpt 5 (float_of_Z 86401) ∅ sample_col
         sample_dialog_opts = (fs', Ok res) ->
       (deck_id sample_dialog_opts, deck_name res)
         ∈ all_names_and_ids (decks sample_col).
Proof.
  split; [reflexivity|]. split; [vm_compute; reflexivity|].
  apply (dialog_deck_is_listed sample_int (fun s => s) html5_excerpt 5
           (float_of_Z 86401) ∅ sample_col {| items := []; currentIndex := -1 |}
           true sample_dialog sample_dialog_opts eq_refl).
  vm_compute. reflexivity.
Defined.

(** ** Texts without whitespace at their ends *)

Lemma rstrip_id s :
  (forall c, last s = Some c -> isspace c = false) -> rstrip s = s.
Proof.
  induction s as [|c s IH]; [done|]. intros H. rewrite rstrip_cons.
  destruct s as [|d s].
  - simpl. rewrite (H c eq_refl). done.
  - rewrite IH by (intros e He; apply H; by rewrite last_cons, He).
    by destruct (isspace c).
Qed.

Lemma strip_id s :
  (forall c, head s = Some c -> isspace c = false) ->
  (forall c, last s = Some c -> isspace c = false) ->
  strip s = s.
Proof.
  intros Hh Hl. unfold strip. rewrite lstrip_id.
  - by apply rstrip_id.
  - destruct s as [|c s]; [done|]. simpl. by apply Hh.
Qed.

Lemma strip_no_space s : Forall (fun c => isspace c = false) s -> strip s = s.
Proof.
  intros H. rewrite Forall_forall in H. apply strip_id.
  - intros c Hc. apply H. destruct s; [done|]. injection Hc as ->.
    apply elem_of_cons; auto.
  - intros c Hc. apply H. by eapply last_Some_elem_of.
Qed.

(** ** The digits of a number *)

Lemma uint_digits_digit u : Forall digit (uint_digits u).
Proof. induction u; simpl; constructor; try done; unfold digit; lia. Qed.

Lemma uint_digits_nonempty u : u <> Decimal.Nil -> uint_digits u <> [].
Proof. by destruct u. Qed.

Lemma repr_int_digits i :
  0 <= i -> repr_int i <> [] /\ Forall digit (repr_int i).
Proof.
  intros Hi. unfold repr_int. destruct i as [|p|p]; [| |lia].
  - split; [done|]. apply uint_digits_digit.
  - simpl. split; [|apply uint_digits_digit].
    apply uint_digits_nonempty, Unsigned.to_uint_nonnil.
Qed.

Lemma digit_no_space c : digit c -> isspace c = false.
Proof.
  unfold digit, isspace. intros H.
  repeat match goal with
         | |- context [(?a <=? ?b)%N] => destruct (N.leb_spec a b)
         | |- context [(?a =? ?b)%N] => destruct (N.eqb_spec a b)
         end; simpl; try done; lia.
Qed.

Lemma digit_no_comma c : digit c -> c <> 44%N.
Proof. unfold digit. lia. Qed.

(** ** Splitting what was joined *)

Lemma split_on_part sep p t :
  sep ∉ p -> split_on sep (p ++ sep :: t) = p :: split_on sep t.
Proof.
  induction p as [|c p IH]; intros Hp.
  - simpl. by rewrite N.eqb_refl.
  - apply not_elem_of_cons in Hp as [Hc Hp].
    change ((c :: p) ++ sep :: t) with (c :: (p ++ sep :: t)).
    rewrite split_on_cons, IH by done.
    by destruct (N.eqb_spec c sep).
Qed.

Lemma split_on_one sep p : sep ∉ p -> split_on sep p = [p].
Proof.
  induction p as [|c p IH]; intros Hp; [done|].
  apply not_elem_of_cons in Hp as [Hc Hp].
  rewrite split_on_cons, IH by done. by destruct (N.eqb_spec c sep).
Qed.

Lemma split_on_join sep parts :
  parts <> [] -> Forall (fun p => sep ∉ p) parts ->
  split_on sep (join [sep] parts) = parts.
Proof.
  intros Hne H. induction H as [|p parts Hp Hps IH]; [done|].
  destruct parts as [|q parts].
  - simpl. by apply split_on_one.
  - rewrite join_cons. change ([sep] ++ join [sep] (q :: parts))
      with (sep :: join [sep] (q :: parts)).
    rewrite split_on_part by done. by rewrite IH.
Qed.

(** ** Field indices *)

Section Indices.

Context (py_int : str -> option Z).

Lemma valid_index_repr i :
  0 <= i -> py_int (repr_int i) = Some i ->
  valid_index py_int (repr_int i) = Some i.
Proof.
  intros Hi Hp. unfold valid_index.
  destruct (repr_int_digits i Hi) as [Hne Hd].
  rewrite strip_no_space
    by (eapply Forall_impl; [exact Hd | apply digit_no_space]).
  destruct (repr_int i) as [|c s] eqn:E; [done|].
  rewrite Hp. by destruct (Z.leb_spec 0 i); [|lia].
Qed.

Lemma omap_valid_index_repr idxs :
  Forall (fun i => 0 <= i /\ py_int (repr_int i) = Some i) idxs ->
  omap (valid_index py_int) (map repr_int idxs) = idxs.
Proof.
  induction 1 as [|i idxs [Hi Hp] _ IH]; [done|]. simpl.
  rewrite (valid_index_repr i Hi Hp). f_equal. exact IH.
Qed.

End Indices.

(** A list of indices written in decimal with commas between them is read
    back as it is: for indices that are not negative and that [int] reads
    back from their decimal form, the getter gives the list itself. *)
Theorem selected_field_indexes_round_trip (py_int : str -> option Z)
    (idxs : list Z) :
  idxs <> [] ->
  Forall (fun i => 0 <= i /\ py_int (repr_int i) = Some i) idxs ->
  selected_field_indexes py_int (join [44%N] (map repr_int idxs)) = Some idxs.
Proof.
  intros Hne H. unfold selected_field_indexes.
  assert (Forall (fun p => p <> [] /\ Forall digit p) (map repr_int idxs)) as Hd.
  { apply Forall_forall. intros p (i & <- & Hi)%list_elem_of_In%in_map_iff.
    apply list_elem_of_In in Hi. rewrite Forall_forall in H.
    apply repr_int_digits. by destruct (H _ Hi). }
  assert (strip (join [44%N] (map repr_int idxs)) = join [44%N] (map repr_int idxs))
    as ->.
  { apply strip_no_space, Forall_forall. intros c Hc.
    apply elem_of_join in Hc as [Hc|(p & Hp & Hc)].
    - by apply list_elem_of_singleton in Hc as ->.
    - rewrite Forall_forall in Hd. destruct (Hd _ Hp) as [_ Hpd].
      rewrite Forall_forall in Hpd. by apply digit_no_space, Hpd. }
  destruct (join [44%N] (map repr_int idxs)) as [|c t] eqn:E.
  - apply join_nil_inv in E.
    + destruct idxs; [done | discriminate].
    + eapply Forall_impl; [exact Hd|]. by intros p [? _].
  - rewrite <- E. rewrite fold_field_index_step. simpl.
    rewrite split_on_join.
    + rewrite (omap_valid_index_repr py_int idxs H). by destruct idxs.
    + by destruct idxs.
    + eapply Forall_impl; [exact Hd|]. intros p [_ Hp] Hin.
      rewrite Forall_forall in Hp. by apply (digit_no_comma _ (Hp _ Hin)).
Qed.

Lemma selected_field_indexes_round_trip_witness :
  [0; 0] <> ([] : list Z)
  /\ Forall (fun i => 0 <= i /\ sample_int (repr_int i) = Some i) [0; 0]
  /\ join [44%N] (map repr_int [0; 0]) = lit "0,0"
  /\ selected_field_indexes sample_int (join [44%N] (map repr_int [0; 0]))
     = Some [0; 0].
Proof.
  assert (Forall (fun i => 0 <= i /\ sample_int (repr_int i) = Some i) [0; 0]) as H.
  { repeat (constructor; [split; [lia | reflexivity]|]). constructor. }
  split; [discriminate|]. split; [exact H|]. split; [reflexivity|].
  exact (selected_field_indexes_round_trip sample_int [0; 0] ltac:(discriminate) H).
Defined.

(** ** Tags *)

Lemma tag_word_word w : tag_word w -> word w.
Proof.
  intros [Hne H]. split; [done|]. eapply Forall_impl; [exact H|]. by intros c [? _].
Qed.

Lemma replace_comma_word w : tag_word w -> replace_char 44%N space w = w.
Proof.
  intros [_ H]. unfold replace_char. induction H as [|c w [_ Hc] _ IH]; [done|].
  simpl. rewrite IH. by destruct (N.eqb_spec c 44).
Qed.

Lemma replace_comma_separator sep :
  tag_separator sep ->
  replace_char 44%N space sep <> []
  /\ Forall (fun c => isspace c = true) (replace_char 44%N space sep).
Proof.
  intros [Hne H]. split; [by destruct sep|]. clear Hne. unfold replace_char.
  induction H as [|c s Hc _ IH]; [constructor|]. simpl. constructor; [|done].
  destruct (N.eqb_spec c 44); [done|]. by destruct Hc.
Qed.

Lemma replace_char_app a b s t :
  replace_char a b (s ++ t) = replace_char a b s ++ replace_char a b t.
Proof. apply map_app. Qed.

Lemma replace_comma_join sep ws :
  Forall tag_word ws ->
  replace_char 44%N space (join sep ws)
  = join (replace_char 44%N space sep) ws.
Proof.
  induction 1 as [|w ws Hw _ IH]; [done|]. destruct ws as [|w' ws].
  - simpl. by apply replace_comma_word.
  - rewrite !join_cons, !replace_char_app, IH.
    by rewrite (replace_comma_word w Hw).
Qed.

Lemma split_ws_skip sep t :
  Forall (fun c => isspace c = true) sep -> split_ws (sep ++ t) = split_ws t.
Proof.
  induction 1 as [|c sep Hc _ IH]; [done|].
  change ((c :: sep) ++ t) with (c :: (sep ++ t)).
  by rewrite split_ws_cons, Hc.
Qed.

Lemma split_ws_word_sep w sep t :
  word w -> sep <> [] -> Forall (fun c => isspace c = true) sep ->
  split_ws (w ++ sep ++ t) = w :: split_ws t.
Proof.
  intros [Hne Hw] Hs Hsep.
  assert (starts_ws (sep ++ t) = true) as Hst.
  { destruct Hsep as [|c sep Hc _]; [done|]. exact Hc. }
  induction Hw as [|c w Hc Hw IH]; [done|].
  change ((c :: w) ++ sep ++ t) with (c :: (w ++ sep ++ t)).
  rewrite split_ws_cons, Hc. destruct w as [|d w].
  - change ([] ++ sep ++ t) with (sep ++ t). rewrite Hst.
    by rewrite split_ws_skip.
  - inversion Hw as [|? ? Hd _]; subst.
    change (starts_ws ((d :: w) ++ sep ++ t)) with (isspace d). rewrite Hd.
    by rewrite IH.
Qed.

Lemma split_ws_join_sep sep ws :
  Forall word ws -> sep <> [] -> Forall (fun c => isspace c = true) sep ->
  split_ws (join sep ws) = ws.
Proof.
  intros H Hs Hsep. induction H as [|w ws Hw Hws IH]; [done|].
  destruct ws as [|w' ws].
  - simpl. by apply split_ws_one.
  - rewrite join_cons, split_ws_word_sep by done. by rewrite IH.
Qed.

Lemma last_app_ne {A} (l1 l2 : list A) : l2 <> [] -> last (l1 ++ l2) = last l2.
Proof.
  intros H. rewrite last_app. destruct (last l2) eqn:E; [done|].
  by apply last_None in E.
Qed.

Lemma join_ends (sep : str) (ws : list str) (P : char -> Prop) :
  ws <> [] -> Forall (fun w => w <> [] /\ Forall P w) ws ->
  (forall c, head (join sep ws) = Some c -> P c)
  /\ (forall c, last (join sep ws) = Some c -> P c).
Proof.
  intros Hne H. induction H as [|w ws [Hw HP] Hws IH]; [done|].
  destruct ws as [|w' ws].
  - simpl. rewrite Forall_forall in HP. split; intros c Hc; apply HP.
    + destruct w; [done|]. injection Hc as ->. apply elem_of_cons; auto.
    + by eapply last_Some_elem_of.
  - rewrite join_cons. destruct (IH ltac:(done)) as [_ IHl]. split.
    + intros c Hc. destruct w as [|d w]; [done|]. injection Hc as ->.
      by inversion HP.
    + intros c Hc. apply IHl. rewrite app_assoc in Hc.
      etrans; [symmetry; apply (last_app_ne (w ++ sep))|exact Hc].
      intros E. apply join_nil_inv in E; [done|].
      eapply Forall_impl; [exact Hws|]. by intros ? [? _].
Qed.

(** Tags written with commas, whitespace or both between them are read as
    the list of the lowered tags, in their order, those left out that the
    lowering makes empty. *)
Theorem selected_tags_of_words (str_lower : str -> str) (sep : str)
    (ws : list str) :
  ws <> [] -> Forall tag_word ws -> tag_separator sep ->
  selected_tags str_lower (join sep ws)
  = nonempty_or_none (filter (fun t => nonempty t) (map str_lower ws)).
Proof.
  intros Hne Hws Hsep. unfold selected_tags.
  assert (Forall (fun w => w <> [] /\ Forall (fun c => isspace c = false) w) ws)
    as Hw.
  { eapply Forall_impl; [exact Hws|]. intros w [? H]. split; [done|].
    eapply Forall_impl; [exact H|]. by intros c [? _]. }
  destruct (join_ends sep ws _ Hne Hw) as [Hh Hl].
  rewrite (strip_id _ Hh Hl).
  destruct (join sep ws) as [|c t] eqn:E.
  - apply join_nil_inv in E; [done|].
    eapply Forall_impl; [exact Hws|]. by intros ? [? _].
  - rewrite <- E, fold_tag_step. simpl.
    rewrite (replace_comma_join sep ws Hws).
    destruct (replace_comma_separator sep Hsep) as [Hs1 Hs2].
    rewrite split_ws_join_sep; [|by eapply Forall_impl; [exact Hws|apply tag_word_word]|done..].
    assert (map (fun p : str => str_lower (strip p)) ws = map str_lower ws)
      as Hmap.
    { apply map_ext_in. intros w Hin. f_equal. apply strip_no_space.
      rewrite Forall_forall in Hw. apply list_elem_of_In in Hin.
      by destruct (Hw _ Hin). }
    by rewrite Hmap.
Qed.

Lemma selected_tags_of_words_witness :
  [lit "verb"; lit "noun"] <> ([] : list str)
  /\ Forall tag_word [lit "verb"; lit "noun"] /\ tag_separator (lit ", ")
  /\ join (lit ", ") [lit "verb"; lit "noun"] = lit "verb, noun"
  /\ selected_tags (fun s => s) (join (lit ", ") [lit "verb"; lit "noun"])
     = nonempty_or_none
         (filter (fun t => nonempty t)
            (map (fun s => s) [lit "verb"; lit "noun"])).
Proof.
  assert (Forall tag_word [lit "verb"; lit "noun"]) as H1.
  { repeat constructor; discriminate. }
  assert (tag_separator (lit ", ")) as H2.
  { split; [discriminate|].
    constructor; [by left|]. constructor; [by right|]. constructor. }
  split; [discriminate|]. split; [exact H1|]. split; [exact H2|].
  split; [reflexivity|].
  exact (selected_tags_of_words (fun s => s) (lit ", ") [lit "verb"; lit "noun"]
           ltac:(discriminate) H1 H2).
Defined.

(** ** The date range of the summary *)

Section DateRange.

Context (utc_offset : Z -> Z).

Lemma strftime_date_dash t : 45%N ∈ strftime_date t.
Proof. unfold strftime_date. rewrite !elem_of_app, list_elem_of_singleton. auto. Qed.

Lemma local_date_dash ts s : local_date_of utc_offset ts = Ok s -> 45%N ∈ s.
Proof.
  unfold local_date_of. destruct (float_of_int ts) as [t|e]; [|done]. simpl.
  destruct (floor_of_float _) as [secs|e]; [|done]. simpl.
  intros [= <-]. apply strftime_date_dash.
Qed.

Lemma not_available_no_dash : 45%N ∉ lit "N/A".
Proof. intros H%list_elem_of_In. vm_compute in H. intuition discriminate. Qed.

Lemma format_date_range_not_available f l :
  _format_date_range utc_offset f l = Ok (lit "N/A") <-> f = None \/ l = None.
Proof.
  split.
  - destruct f as [f|], l as [l|]; auto. unfold _format_date_range.
    destruct (local_date_of utc_offset f) as [s|e] eqn:Es; [|done]. simpl.
    destruct (local_date_of utc_offset l) as [u|e] eqn:Eu; [|done]. simpl.
    pose proof (local_date_dash _ _ Es) as Hs.
    destruct (bool_decide _); intros [= H]; exfalso;
      apply not_available_no_dash; rewrite <- H; rewrite ?elem_of_app; auto.
  - intros [-> | ->]; [done | by destruct f].
Qed.

End DateRange.

(** The date range that the summary shows for the result of a run is [N/A]
    exactly when the run exported no review. *)
Theorem format_date_range_of_result (utc_offset : Z -> Z)
    (html5 : gmap str str) (limit : nat) (now_sec : spec_float)
    (fs : gmap str str) (col : Collection) (opts : ExportOptions)
    (fs' : gmap str str) (res : ExportResult) :
  export_llm_stats html5 limit now_sec fs col opts = (fs', Ok res) ->
  _format_date_range utc_offset (first_ts_ms res) (last_ts_ms res)
  = Ok (lit "N/A")
  <-> count res = 0%nat.
Proof.
  intros Hrun.
  apply export_llm_stats_ok in Hrun as (? & ? & ? & _ & _ & _ & _ & ->).
  rewrite format_date_range_not_available. simpl.
  destruct (exported_rows limit now_sec col opts) as [|row rows]; simpl.
  - split; auto.
  - split; [|done]. intros [[=]|H]. rewrite last_cons in H.
    by destruct (last (map r_id rows)).
Qed.

Lemma format_date_range_of_result_witness :
  (export_llm_stats html5_excerpt 5 (float_of_Z 86401) ∅ sample_col sample_opts).2
  = Ok sample_result
  /\ _format_date_range sample_offset (first_ts_ms sample_result)
       (last_ts_ms sample_result) = Ok (lit "1970-01-01")
  /\ (_format_date_range sample_offset (first_ts_ms sample_result)
        (last_ts_ms sample_result) = Ok (lit "N/A")
      <-> count sample_result = 0%nat).
Proof.
  split; [vm_compute; reflexivity|]. split; [vm_compute; reflexivity|].
  apply (format_date_range_of_result sample_offset html5_excerpt 5
           (float_of_Z 86401) ∅ sample_col sample_opts
           (export_llm_stats html5_excerpt 5 (float_of_Z 86401) ∅ sample_col
              sample_opts).1).
  vm_compute. reflexivity.
Defined.

(** ** The dialog as it is shown *)

Lemma populate_decks_index str_lower col combo :
  currentIndex (_populate_decks str_lower col combo)
  = match sort_by_key (lower_name str_lower) (all_names_and_ids (decks col)) with
    | [] => -1
    | _ => 0
    end.
Proof.
  unfold _populate_decks. rewrite fold_addItem_index. simpl.
  fold (lower_name str_lower). by destruct (sort_by_key _ _).
Qed.

Lemma populate_decks_current str_lower col combo :
  currentData (_populate_decks str_lower col combo)
  = fst <$> head (sort_by_key (lower_name str_lower)
                    (all_names_and_ids (decks col))).
Proof.
  unfold currentData.
  rewrite populate_decks_index, populate_decks_items.
  by destruct (sort_by_key _ _).
Qed.

Lemma sort_by_key_head {A} (key : A -> str) (l : list A) :
  l <> [] ->
  exists d, head (sort_by_key key l) = Some d /\ d ∈ l
            /\ forall d', d' ∈ l -> str_le (key d) (key d') = true.
Proof.
  intros Hne.
  pose proof (sort_by_key_perm key l) as Hp.
  pose proof (sort_by_key_sorted key l) as Hs.
  destruct (sort_by_key key l) as [|d rest].
  - by apply Permutation_nil_l in Hp.
  - exists d. split; [done|]. split.
    + rewrite <- Hp. apply elem_of_cons; auto.
    + intros d' Hd'. rewrite <- Hp in Hd'.
      apply elem_of_cons in Hd' as [->|Hd']; [apply str_le_refl|].
      apply StronglySorted_inv in Hs as [_ Hall].
      rewrite Forall_forall in Hall. by apply Hall.
Qed.

(** The dialog accepted as it is shown, with a path that is not blank,
    starts the export of the last day of the deck that comes first by its
    lowered name, with all the fields, no filter on tags or intervals, and
    the verbose schema without its optional keys. With no deck in the
    collection, reading the deck raises [TypeError]. *)
Theorem new_dialog_accepted (py_int : str -> option Z)
    (str_lower : str -> str) (col : Collection) (default_path : str) :
  not_blank default_path ->
  let dlg := new_dialog str_lower col default_path in
  (all_names_and_ids (decks col) = [] ->
   on_export_llm_stats py_int str_lower (Some col) true dlg = RaiseTypeError)
  /\ (all_names_and_ids (decks col) <> [] ->
      exists d,
        d ∈ all_names_and_ids (decks col)
        /\ (forall d', d' ∈ all_names_and_ids (decks col) ->
              str_le (str_lower d.2) (str_lower d'.2) = true)
        /\ on_export_llm_stats py_int str_lower (Some col) true dlg
           = RunInBackground
               {| deck_id := d.1; days := Some 1;
                  out_path := strip default_path;
                  field_indexes := None; tags_filter := None;
                  min_interval := None; include_ids := false;
                  include_deck_name := false; include_ts_ms := false;
                  compact_schema := false |}).
Proof.
  intros Hpath dlg. subst dlg.
  unfold on_export_llm_stats, new_dialog, selected_deck_id, output_path.
  cbn [negb deck_combo range_combo custom_days_spin path_edit
       field_indexes_edit tags_edit min_interval_spin include_ids_checkbox
       include_deck_name_checkbox include_ts_ms_checkbox
       compact_schema_checkbox].
  rewrite populate_decks_current. split.
  - by intros ->.
  - intros Hne.
    destruct (sort_by_key_head (lower_name str_lower) _ Hne)
      as (d & -> & Hd & Hmin).
    exists d. split; [done|]. split; [exact Hmin|]. cbn [fmap option_fmap option_map].
    apply strip_not_blank in Hpath.
    destruct (strip default_path) as [|c s] eqn:E; [done|]. reflexivity.
Qed.

Lemma new_dialog_accepted_witness :
  not_blank (lit "/p/llm_review_stats.jsonl")
  /\ all_names_and_ids (decks sample_col) <> []
  /\ on_export_llm_stats sample_int (fun s => s) (Some sample_col) true
       (new_dialog (fun s => s) sample_col (lit "/p/llm_review_stats.jsonl"))
     = RunInBackground
         {| deck_id := 1; days := Some 1;
            out_path := lit "/p/llm_review_stats.jsonl";
            field_indexes := None; tags_filter := None;
            min_interval := None; include_ids := false;
            include_deck_name := false; include_ts_ms := false;
            compact_schema := false |}
  /\ (let dlg :=
        new_dialog (fun s => s) sample_col (lit "/p/llm_review_stats.jsonl") in
      (all_names_and_ids (decks sample_col) = [] ->
       on_export_llm_stats sample_int (fun s => s) (Some sample_col) true dlg
       = RaiseTypeError)
      /\ (all_names_and_ids (decks sample_col) <> [] ->
          exists d,
            d ∈ all_names_and_ids (decks sample_col)
            /\ (forall d', d' ∈ all_names_and_ids (decks sample_col) ->
                  str_le d.2 d'.2 = true)
            /\ on_export_llm_stats sample_int (fun s => s) (Some sample_col)
                 true dlg
               = RunInBackground
                   {| deck_id := d.1; days := Some 1;
                      out_path := strip (lit "/p/llm_review_stats.jsonl");
                      field_indexes := None; tags_filter := None;
                      min_interval := None; include_ids := false;
                      include_deck_name := false; include_ts_ms := false;
                      compact_schema := false |})).
Proof.
  assert (not_blank (lit "/p/llm_review_stats.jsonl")) as H.
  { exists 47%N. split; [by left | reflexivity]. }
  split; [exact H|]. split; [discriminate|]. split; [vm_compute; reflexivity|].
  exact (new_dialog_accepted sample_int (fun s => s) sample_col
           (lit "/p/llm_review_stats.jsonl") H).
Defined.
